(** * Verification of the LinkedIn post generator (src/app.py)

    The development embeds the text filter [clean_output], the post
    splitter and the multi-step pipeline [generate_posts], and the
    Streamlit script body that drives them, and settles the properties
    the specification states about them.

    Python strings are sequences of Unicode code points; [re], [str.strip]
    and [len] all work on code points.  The two regular expressions of the
    program are given as the operation sequences [re] compiles them to and
    are run by a backtracking matcher that follows CPython's [_sre]. *)

From Stdlib Require Import Ascii String DecimalString.
From Stdlib Require Import List Bool Arith NArith ZArith QArith Qround Lia.
From Stdlib Require Import Permutation.
From Stdlib Require DecimalPos DecimalZ.
Import ListNotations.
Close Scope Q_scope.

Set Warnings "-register-all".

(** ** Python strings *)

Definition char := N.
Definition str := list char.

(** An ASCII literal as a Python string. *)
Definition py (s : string) : str := map N_of_ascii (list_ascii_of_string s).

Definition NL : char := 10%N.
Definition QUOTE : char := 34%N.

(** ** Character data of the interpreter

    The tables are those of CPython 3.11 (Unicode 14.0.0): what
    [str.isspace], [str.isdecimal] and [str.isalnum] answer for every
    code point, as closed intervals. *)
Module Unicode.

Local Open Scope N_scope.

Definition whitespace_ranges : list (N * N) :=
  [
    (9, 13); (28, 32); (133, 133); (160, 160); (5760, 5760); (8192, 8202);
    (8232, 8233); (8239, 8239); (8287, 8287); (12288, 12288)
  ].

Definition decimal_ranges : list (N * N) :=
  [
    (48, 57); (1632, 1641); (1776, 1785); (1984, 1993); (2406, 2415); (2534, 2543);
    (2662, 2671); (2790, 2799); (2918, 2927); (3046, 3055); (3174, 3183); (3302, 3311);
    (3430, 3439); (3558, 3567); (3664, 3673); (3792, 3801); (3872, 3881); (4160, 4169);
    (4240, 4249); (6112, 6121); (6160, 6169); (6470, 6479); (6608, 6617); (6784, 6793);
    (6800, 6809); (6992, 7001); (7088, 7097); (7232, 7241); (7248, 7257); (42528, 42537);
    (43216, 43225); (43264, 43273); (43472, 43481); (43504, 43513); (43600, 43609); (44016, 44025);
    (65296, 65305); (66720, 66729); (68912, 68921); (69734, 69743); (69872, 69881); (69942, 69951);
    (70096, 70105); (70384, 70393); (70736, 70745); (70864, 70873); (71248, 71257); (71360, 71369);
    (71472, 71481); (71904, 71913); (72016, 72025); (72784, 72793); (73040, 73049); (73120, 73129);
    (92768, 92777); (92864, 92873); (93008, 93017); (120782, 120831); (123200, 123209); (123632, 123641);
    (125264, 125273); (130032, 130041)
  ].

Definition alnum_ranges : list (N * N) :=
  [
    (48, 57); (65, 90); (97, 122); (170, 170); (178, 179); (181, 181);
    (185, 186); (188, 190); (192, 214); (216, 246); (248, 705); (710, 721);
    (736, 740); (748, 748); (750, 750); (880, 884); (886, 887); (890, 893);
    (895, 895); (902, 902); (904, 906); (908, 908); (910, 929); (931, 1013);
    (1015, 1153); (1162, 1327); (1329, 1366); (1369, 1369); (1376, 1416); (1488, 1514);
    (1519, 1522); (1568, 1610); (1632, 1641); (1646, 1647); (1649, 1747); (1749, 1749);
    (1765, 1766); (1774, 1788); (1791, 1791); (1808, 1808); (1810, 1839); (1869, 1957);
    (1969, 1969); (1984, 2026); (2036, 2037); (2042, 2042); (2048, 2069); (2074, 2074);
    (2084, 2084); (2088, 2088); (2112, 2136); (2144, 2154); (2160, 2183); (2185, 2190);
    (2208, 2249); (2308, 2361); (2365, 2365); (2384, 2384); (2392, 2401); (2406, 2415);
    (2417, 2432); (2437, 2444); (2447, 2448); (2451, 2472); (2474, 2480); (2482, 2482);
    (2486, 2489); (2493, 2493); (2510, 2510); (2524, 2525); (2527, 2529); (2534, 2545);
    (2548, 2553); (2556, 2556); (2565, 2570); (2575, 2576); (2579, 2600); (2602, 2608);
    (2610, 2611); (2613, 2614); (2616, 2617); (2649, 2652); (2654, 2654); (2662, 2671);
    (2674, 2676); (2693, 2701); (2703, 2705); (2707, 2728); (2730, 2736); (2738, 2739);
    (2741, 2745); (2749, 2749); (2768, 2768); (2784, 2785); (2790, 2799); (2809, 2809);
    (2821, 2828); (2831, 2832); (2835, 2856); (2858, 2864); (2866, 2867); (2869, 2873);
    (2877, 2877); (2908, 2909); (2911, 2913); (2918, 2927); (2929, 2935); (2947, 2947);
    (2949, 2954); (2958, 2960); (2962, 2965); (2969, 2970); (2972, 2972); (2974, 2975);
    (2979, 2980); (2984, 2986); (2990, 3001); (3024, 3024); (3046, 3058); (3077, 3084);
    (3086, 3088); (3090, 3112); (3114, 3129); (3133, 3133); (3160, 3162); (3165, 3165);
    (3168, 3169); (3174, 3183); (3192, 3198); (3200, 3200); (3205, 3212); (3214, 3216);
    (3218, 3240); (3242, 3251); (3253, 3257); (3261, 3261); (3293, 3294); (3296, 3297);
    (3302, 3311); (3313, 3314); (3332, 3340); (3342, 3344); (3346, 3386); (3389, 3389);
    (3406, 3406); (3412, 3414); (3416, 3425); (3430, 3448); (3450, 3455); (3461, 3478);
    (3482, 3505); (3507, 3515); (3517, 3517); (3520, 3526); (3558, 3567); (3585, 3632);
    (3634, 3635); (3648, 3654); (3664, 3673); (3713, 3714); (3716, 3716); (3718, 3722);
    (3724, 3747); (3749, 3749); (3751, 3760); (3762, 3763); (3773, 3773); (3776, 3780);
    (3782, 3782); (3792, 3801); (3804, 3807); (3840, 3840); (3872, 3891); (3904, 3911);
    (3913, 3948); (3976, 3980); (4096, 4138); (4159, 4169); (4176, 4181); (4186, 4189);
    (4193, 4193); (4197, 4198); (4206, 4208); (4213, 4225); (4238, 4238); (4240, 4249);
    (4256, 4293); (4295, 4295); (4301, 4301); (4304, 4346); (4348, 4680); (4682, 4685);
    (4688, 4694); (4696, 4696); (4698, 4701); (4704, 4744); (4746, 4749); (4752, 4784);
    (4786, 4789); (4792, 4798); (4800, 4800); (4802, 4805); (4808, 4822); (4824, 4880);
    (4882, 4885); (4888, 4954); (4969, 4988); (4992, 5007); (5024, 5109); (5112, 5117);
    (5121, 5740); (5743, 5759); (5761, 5786); (5792, 5866); (5870, 5880); (5888, 5905);
    (5919, 5937); (5952, 5969); (5984, 5996); (5998, 6000); (6016, 6067); (6103, 6103);
    (6108, 6108); (6112, 6121); (6128, 6137); (6160, 6169); (6176, 6264); (6272, 6276);
    (6279, 6312); (6314, 6314); (6320, 6389); (6400, 6430); (6470, 6509); (6512, 6516);
    (6528, 6571); (6576, 6601); (6608, 6618); (6656, 6678); (6688, 6740); (6784, 6793);
    (6800, 6809); (6823, 6823); (6917, 6963); (6981, 6988); (6992, 7001); (7043, 7072);
    (7086, 7141); (7168, 7203); (7232, 7241); (7245, 7293); (7296, 7304); (7312, 7354);
    (7357, 7359); (7401, 7404); (7406, 7411); (7413, 7414); (7418, 7418); (7424, 7615);
    (7680, 7957); (7960, 7965); (7968, 8005); (8008, 8013); (8016, 8023); (8025, 8025);
    (8027, 8027); (8029, 8029); (8031, 8061); (8064, 8116); (8118, 8124); (8126, 8126);
    (8130, 8132); (8134, 8140); (8144, 8147); (8150, 8155); (8160, 8172); (8178, 8180);
    (8182, 8188); (8304, 8305); (8308, 8313); (8319, 8329); (8336, 8348); (8450, 8450);
    (8455, 8455); (8458, 8467); (8469, 8469); (8473, 8477); (8484, 8484); (8486, 8486);
    (8488, 8488); (8490, 8493); (8495, 8505); (8508, 8511); (8517, 8521); (8526, 8526);
    (8528, 8585); (9312, 9371); (9450, 9471); (10102, 10131); (11264, 11492); (11499, 11502);
    (11506, 11507); (11517, 11517); (11520, 11557); (11559, 11559); (11565, 11565); (11568, 11623);
    (11631, 11631); (11648, 11670); (11680, 11686); (11688, 11694); (11696, 11702); (11704, 11710);
    (11712, 11718); (11720, 11726); (11728, 11734); (11736, 11742); (11823, 11823); (12293, 12295);
    (12321, 12329); (12337, 12341); (12344, 12348); (12353, 12438); (12445, 12447); (12449, 12538);
    (12540, 12543); (12549, 12591); (12593, 12686); (12690, 12693); (12704, 12735); (12784, 12799);
    (12832, 12841); (12872, 12879); (12881, 12895); (12928, 12937); (12977, 12991); (13312, 19903);
    (19968, 42124); (42192, 42237); (42240, 42508); (42512, 42539); (42560, 42606); (42623, 42653);
    (42656, 42735); (42775, 42783); (42786, 42888); (42891, 42954); (42960, 42961); (42963, 42963);
    (42965, 42969); (42994, 43009); (43011, 43013); (43015, 43018); (43020, 43042); (43056, 43061);
    (43072, 43123); (43138, 43187); (43216, 43225); (43250, 43255); (43259, 43259); (43261, 43262);
    (43264, 43301); (43312, 43334); (43360, 43388); (43396, 43442); (43471, 43481); (43488, 43492);
    (43494, 43518); (43520, 43560); (43584, 43586); (43588, 43595); (43600, 43609); (43616, 43638);
    (43642, 43642); (43646, 43695); (43697, 43697); (43701, 43702); (43705, 43709); (43712, 43712);
    (43714, 43714); (43739, 43741); (43744, 43754); (43762, 43764); (43777, 43782); (43785, 43790);
    (43793, 43798); (43808, 43814); (43816, 43822); (43824, 43866); (43868, 43881); (43888, 44002);
    (44016, 44025); (44032, 55203); (55216, 55238); (55243, 55291); (63744, 64109); (64112, 64217);
    (64256, 64262); (64275, 64279); (64285, 64285); (64287, 64296); (64298, 64310); (64312, 64316);
    (64318, 64318); (64320, 64321); (64323, 64324); (64326, 64433); (64467, 64829); (64848, 64911);
    (64914, 64967); (65008, 65019); (65136, 65140); (65142, 65276); (65296, 65305); (65313, 65338);
    (65345, 65370); (65382, 65470); (65474, 65479); (65482, 65487); (65490, 65495); (65498, 65500);
    (65536, 65547); (65549, 65574); (65576, 65594); (65596, 65597); (65599, 65613); (65616, 65629);
    (65664, 65786); (65799, 65843); (65856, 65912); (65930, 65931); (66176, 66204); (66208, 66256);
    (66273, 66299); (66304, 66339); (66349, 66378); (66384, 66421); (66432, 66461); (66464, 66499);
    (66504, 66511); (66513, 66517); (66560, 66717); (66720, 66729); (66736, 66771); (66776, 66811);
    (66816, 66855); (66864, 66915); (66928, 66938); (66940, 66954); (66956, 66962); (66964, 66965);
    (66967, 66977); (66979, 66993); (66995, 67001); (67003, 67004); (67072, 67382); (67392, 67413);
    (67424, 67431); (67456, 67461); (67463, 67504); (67506, 67514); (67584, 67589); (67592, 67592);
    (67594, 67637); (67639, 67640); (67644, 67644); (67647, 67669); (67672, 67702); (67705, 67742);
    (67751, 67759); (67808, 67826); (67828, 67829); (67835, 67867); (67872, 67897); (67968, 68023);
    (68028, 68047); (68050, 68096); (68112, 68115); (68117, 68119); (68121, 68149); (68160, 68168);
    (68192, 68222); (68224, 68255); (68288, 68295); (68297, 68324); (68331, 68335); (68352, 68405);
    (68416, 68437); (68440, 68466); (68472, 68497); (68521, 68527); (68608, 68680); (68736, 68786);
    (68800, 68850); (68858, 68899); (68912, 68921); (69216, 69246); (69248, 69289); (69296, 69297);
    (69376, 69415); (69424, 69445); (69457, 69460); (69488, 69505); (69552, 69579); (69600, 69622);
    (69635, 69687); (69714, 69743); (69745, 69746); (69749, 69749); (69763, 69807); (69840, 69864);
    (69872, 69881); (69891, 69926); (69942, 69951); (69956, 69956); (69959, 69959); (69968, 70002);
    (70006, 70006); (70019, 70066); (70081, 70084); (70096, 70106); (70108, 70108); (70113, 70132);
    (70144, 70161); (70163, 70187); (70272, 70278); (70280, 70280); (70282, 70285); (70287, 70301);
    (70303, 70312); (70320, 70366); (70384, 70393); (70405, 70412); (70415, 70416); (70419, 70440);
    (70442, 70448); (70450, 70451); (70453, 70457); (70461, 70461); (70480, 70480); (70493, 70497);
    (70656, 70708); (70727, 70730); (70736, 70745); (70751, 70753); (70784, 70831); (70852, 70853);
    (70855, 70855); (70864, 70873); (71040, 71086); (71128, 71131); (71168, 71215); (71236, 71236);
    (71248, 71257); (71296, 71338); (71352, 71352); (71360, 71369); (71424, 71450); (71472, 71483);
    (71488, 71494); (71680, 71723); (71840, 71922); (71935, 71942); (71945, 71945); (71948, 71955);
    (71957, 71958); (71960, 71983); (71999, 71999); (72001, 72001); (72016, 72025); (72096, 72103);
    (72106, 72144); (72161, 72161); (72163, 72163); (72192, 72192); (72203, 72242); (72250, 72250);
    (72272, 72272); (72284, 72329); (72349, 72349); (72368, 72440); (72704, 72712); (72714, 72750);
    (72768, 72768); (72784, 72812); (72818, 72847); (72960, 72966); (72968, 72969); (72971, 73008);
    (73030, 73030); (73040, 73049); (73056, 73061); (73063, 73064); (73066, 73097); (73112, 73112);
    (73120, 73129); (73440, 73458); (73648, 73648); (73664, 73684); (73728, 74649); (74752, 74862);
    (74880, 75075); (77712, 77808); (77824, 78894); (82944, 83526); (92160, 92728); (92736, 92766);
    (92768, 92777); (92784, 92862); (92864, 92873); (92880, 92909); (92928, 92975); (92992, 92995);
    (93008, 93017); (93019, 93025); (93027, 93047); (93053, 93071); (93760, 93846); (93952, 94026);
    (94032, 94032); (94099, 94111); (94176, 94177); (94179, 94179); (94208, 100343); (100352, 101589);
    (101632, 101640); (110576, 110579); (110581, 110587); (110589, 110590); (110592, 110882); (110928, 110930);
    (110948, 110951); (110960, 111355); (113664, 113770); (113776, 113788); (113792, 113800); (113808, 113817);
    (119520, 119539); (119648, 119672); (119808, 119892); (119894, 119964); (119966, 119967); (119970, 119970);
    (119973, 119974); (119977, 119980); (119982, 119993); (119995, 119995); (119997, 120003); (120005, 120069);
    (120071, 120074); (120077, 120084); (120086, 120092); (120094, 120121); (120123, 120126); (120128, 120132);
    (120134, 120134); (120138, 120144); (120146, 120485); (120488, 120512); (120514, 120538); (120540, 120570);
    (120572, 120596); (120598, 120628); (120630, 120654); (120656, 120686); (120688, 120712); (120714, 120744);
    (120746, 120770); (120772, 120779); (120782, 120831); (122624, 122654); (123136, 123180); (123191, 123197);
    (123200, 123209); (123214, 123214); (123536, 123565); (123584, 123627); (123632, 123641); (124896, 124902);
    (124904, 124907); (124909, 124910); (124912, 124926); (124928, 125124); (125127, 125135); (125184, 125251);
    (125259, 125259); (125264, 125273); (126065, 126123); (126125, 126127); (126129, 126132); (126209, 126253);
    (126255, 126269); (126464, 126467); (126469, 126495); (126497, 126498); (126500, 126500); (126503, 126503);
    (126505, 126514); (126516, 126519); (126521, 126521); (126523, 126523); (126530, 126530); (126535, 126535);
    (126537, 126537); (126539, 126539); (126541, 126543); (126545, 126546); (126548, 126548); (126551, 126551);
    (126553, 126553); (126555, 126555); (126557, 126557); (126559, 126559); (126561, 126562); (126564, 126564);
    (126567, 126570); (126572, 126578); (126580, 126583); (126585, 126588); (126590, 126590); (126592, 126601);
    (126603, 126619); (126625, 126627); (126629, 126633); (126635, 126651); (127232, 127244); (130032, 130041);
    (131072, 173791); (173824, 177976); (177984, 178205); (178208, 183969); (183984, 191456); (194560, 195101);
    (196608, 201546)
  ].
Fixpoint in_ranges (rs : list (N * N)) (c : N) : bool :=
  match rs with
  | [] => false
  | (lo, hi) :: rs' => ((lo <=? c) && (c <=? hi)) || in_ranges rs' c
  end.

(** [Py_UNICODE_ISSPACE]: used by [str.strip] and by [\s]. *)
Definition isspace (c : char) : bool := in_ranges whitespace_ranges c.

(** [Py_UNICODE_ISDECIMAL]: used by [\d]. *)
Definition isdecimal (c : char) : bool := in_ranges decimal_ranges c.

(** [Py_UNICODE_ISALNUM]. *)
Definition isalnum (c : char) : bool := in_ranges alnum_ranges c.

(** [SRE_UNI_IS_WORD]: what [\w] matches, and what [\b] looks at. *)
Definition is_word (c : char) : bool := isalnum c || (c =? 95).

(** [sre_lower_unicode], as far as ASCII patterns can see it.  The code
    points whose lower-case mapping is an ASCII letter are the 26 capitals,
    U+0130 (to i) and the Kelvin sign U+212A (to k); they are sent there.
    Every other code point is returned as it is: its lower case is not an
    ASCII letter, and no code point lowers to U+0131 or U+017F except
    themselves, so the answer of every comparison made by [lit_matches]
    below is the one CPython gives. *)
Definition sre_lower (c : char) : char :=
  if (65 <=? c) && (c <=? 90) then c + 32
  else if c =? 304 then 105
  else if c =? 8490 then 107
  else c.

End Unicode.

(** ** The matcher of [re]

    A pattern is the sequence of operations [sre_compile] produces.  The
    program's patterns need literals, one set, the categories [\d] and
    [\s], the assertion [\b], and greedy repetition of a single-character
    item ([REPEAT_ONE] in [_sre]).  Pattern characters are ASCII. *)
Module Sre.

Import Unicode.
Local Open Scope N_scope.

Inductive atom : Type :=
| LITERAL (a : ascii)
| IN (set : list ascii)
| CATEGORY_DIGIT
| CATEGORY_SPACE.

Inductive op : Type :=
| AT_BOUNDARY
| ONE (a : atom)
| MAX_REPEAT (lo : nat) (a : atom).

Definition pattern := list op.

Definition iscased (c : char) : bool :=
  ((65 <=? c) && (c <=? 90)) || ((97 <=? c) && (c <=? 122)).

(** [_ignorecase_fixes] of [sre_compile], for ASCII letters: the other
    lower-case code points with the same upper case. *)
Definition ignorecase_fixes (lo : char) : list char :=
  if lo =? 105 then [305] else if lo =? 115 then [383] else [].

(** A literal under the IGNORECASE flag is compiled to a comparison of the
    lowered subject character with the lowered pattern character and its
    fixes; an uncased literal, or one compiled without the flag, is
    compared as it is. *)
Definition lit_matches (ignorecase : bool) (a : ascii) (x : char) : bool :=
  let c := N_of_ascii a in
  if ignorecase && iscased c
  then existsb (N.eqb (sre_lower x)) (sre_lower c :: ignorecase_fixes (sre_lower c))
  else x =? c.

Definition atom_matches (ignorecase : bool) (a : atom) (x : char) : bool :=
  match a with
  | LITERAL l => lit_matches ignorecase l x
  | IN set => existsb (fun l => lit_matches ignorecase l x) set
  | CATEGORY_DIGIT => isdecimal x
  | CATEGORY_SPACE => isspace x
  end.

(** The matcher works at a position of the subject: the character before
    it, if any, and the text from it on. *)
Definition word_before (prev : option char) : bool :=
  match prev with Some c => is_word c | None => false end.

Definition word_here (s : str) : bool :=
  match s with c :: _ => is_word c | [] => false end.

Definition at_boundary (prev : option char) (s : str) : bool :=
  xorb (word_before prev) (word_here s).

Definition position : Type := option char * str.

Section Exec.

Variable ignorecase : bool.

(** Greedy repetition of one item, at least [lo] times: take as many as
    there are, then give them back one at a time until the rest of the
    pattern ([k]) matches. *)
Fixpoint repeat_one (a : atom) (lo : nat) (prev : option char) (s : str)
    (k : option char -> str -> option position) : option position :=
  match s with
  | x :: s' =>
      if atom_matches ignorecase a x then
        match repeat_one a (pred lo) (Some x) s' k with
        | Some r => Some r
        | None => if Nat.eqb lo 0 then k prev s else None
        end
      else if Nat.eqb lo 0 then k prev s else None
  | [] => if Nat.eqb lo 0 then k prev s else None
  end.

Fixpoint exec (pat : pattern) (prev : option char) (s : str)
    (k : option char -> str -> option position) : option position :=
  match pat with
  | [] => k prev s
  | AT_BOUNDARY :: pat' => if at_boundary prev s then exec pat' prev s k else None
  | ONE a :: pat' =>
      match s with
      | x :: s' => if atom_matches ignorecase a x then exec pat' (Some x) s' k else None
      | [] => None
      end
  | MAX_REPEAT lo a :: pat' =>
      repeat_one a lo prev s (fun prev' s' => exec pat' prev' s' k)
  end.

(** SUCCESS: a match is refused when it is empty and the previous match
    ended here ([must_advance]). *)
Definition success (must_advance : bool) (s : str)
    (prev' : option char) (s' : str) : option position :=
  if must_advance && Nat.eqb (length s') (length s) then None
  else Some (prev', s').

Definition match_at (pat : pattern) (must_advance : bool)
    (prev : option char) (s : str) : option position :=
  exec pat prev s (success must_advance s).

(** What one search finds: the text skipped before the match, the matched
    text, and the position after it. *)
Record hit : Type := Hit
  { skipped : str; matched : str; last_seen : option char; remaining : str }.

Definition skip_one (x : char) (h : hit) : hit :=
  Hit (x :: skipped h) (matched h) (last_seen h) (remaining h).

(** [sre_search]: the first position, from the left, where the pattern
    matches; [must_advance] only concerns the first one tried. *)
Fixpoint search (pat : pattern) (must_advance : bool)
    (prev : option char) (s : str) : option hit :=
  match match_at pat must_advance prev s with
  | Some (prev', s') =>
      Some (Hit [] (firstn (length s - length s') s) prev' s')
  | None =>
      match s with
      | [] => None
      | x :: s' => option_map (skip_one x) (search pat false (Some x) s')
      end
  end.

(** The loop shared by [sub] and [split]: search, record the piece before
    the match, go on after the match.  Every round but one after an empty
    match uses up a character, so [2 * len + 2] rounds are never reached. *)
Fixpoint scan_loop (rounds : nat) (pat : pattern) (must_advance : bool)
    (prev : option char) (s : str) : list (str * str) * str :=
  match rounds with
  | O => ([], s)
  | S rounds' =>
      match search pat must_advance prev s with
      | None => ([], s)
      | Some h =>
          let '(pieces, rest) :=
            scan_loop rounds' pat (Nat.eqb (length (matched h)) 0)
                      (last_seen h) (remaining h) in
          ((skipped h, matched h) :: pieces, rest)
      end
  end.

Definition scan (pat : pattern) (s : str) : list (str * str) * str :=
  scan_loop (2 * length s + 2) pat false None s.

End Exec.

(** [re.sub(pattern, repl, string, flags)] for a replacement without
    group references. *)
Definition sub (pat : pattern) (repl : str) (s : str) (ignorecase : bool) : str :=
  let '(pieces, rest) := scan ignorecase pat s in
  concat (map (fun piece => fst piece ++ repl) pieces) ++ rest.

(** [re.split(pattern, string)] for a pattern without groups. *)
Definition split (pat : pattern) (s : str) : list str :=
  let '(pieces, rest) := scan false pat s in
  map fst pieces ++ [rest].

End Sre.

(** ** Built-ins of Python the program uses *)

(** [s.strip()]: without leading and trailing white space. *)
Fixpoint lstrip (s : str) : str :=
  match s with
  | c :: s' => if Unicode.isspace c then lstrip s' else s
  | [] => []
  end.

Definition rstrip (s : str) : str := rev (lstrip (rev s)).

Definition strip (s : str) : str := lstrip (rstrip s).

(** [l[:n]]: a negative bound counts from the end. *)
Definition slice_to {A : Type} (n : Z) (l : list A) : list A :=
  if (n <? 0)%Z then firstn (length l - Z.to_nat (- n)) l
  else firstn (Z.to_nat n) l.

(** [str(n)] for an integer. *)
Definition str_of_int (n : Z) : str := py (NilZero.string_of_int (Z.to_int n)).

(** ** The guardrail filter (app.py, lines 47-52) *)

Definition banned_words : list string := ["fuck"; "shit"; "hate"; "kill"]%string.

(** The pattern [rf"\b{w}\b"]. *)
Definition word_pattern (w : string) : Sre.pattern :=
  [Sre.AT_BOUNDARY]
    ++ map (fun a => Sre.ONE (Sre.LITERAL a)) (list_ascii_of_string w)
    ++ [Sre.AT_BOUNDARY].

Definition removed : str := py "[removed]".

Definition clean_output (text : str) : str :=
  fold_left (fun text w => Sre.sub (word_pattern w) removed text true)
            banned_words text.

(** ** Splitting the drafted posts (app.py, lines 86-88) *)

(** The pattern [r"\n\s*\d+[\.\)]"]. *)
Definition numbering : Sre.pattern :=
  [ Sre.ONE (Sre.LITERAL "010"%char);
    Sre.MAX_REPEAT 0 Sre.CATEGORY_SPACE;
    Sre.MAX_REPEAT 1 Sre.CATEGORY_DIGIT;
    Sre.ONE (Sre.IN ["."%char; ")"%char]) ].

Definition split_posts (posts_raw : str) (post_count : Z) : list str :=
  let posts := Sre.split numbering posts_raw in
  let posts := map strip (filter (fun p => (30 <? length (strip p))%nat) posts) in
  slice_to post_count posts.

(** ** The sidebar inputs (app.py, lines 26-36) *)

Inductive Tone : Type :=
  Professional | Casual | Inspirational | ThoughtLeadership | Humorous.

Inductive Length : Type := Short | Medium | Long.

Inductive Language : Type := English | Hindi | Spanish | French.

Definition tone_lower (t : Tone) : str :=
  match t with
  | Professional => py "professional"
  | Casual => py "casual"
  | Inspirational => py "inspirational"
  | ThoughtLeadership => py "thought leadership"
  | Humorous => py "humorous"
  end.

Definition length_lower (l : Length) : str :=
  match l with
  | Short => py "short"
  | Medium => py "medium"
  | Long => py "long"
  end.

Definition language_name (l : Language) : str :=
  match l with
  | English => py "English"
  | Hindi => py "Hindi"
  | Spanish => py "Spanish"
  | French => py "French"
  end.

Definition str_of_bool (b : bool) : str := if b then py "True" else py "False".

(** Truth value of a string: [if s], [s or default]. *)
Definition truthy (s : str) : bool :=
  match s with [] => false | _ :: _ => true end.

(** The arguments of [generate_posts]. *)
Record Request : Type := MkRequest
  { topic : str;
    tone : Tone;
    audience : str;
    length_ : Length;
    language : Language;
    hashtags : bool;
    cta : bool;
    post_count : Z }.

(** What the sidebar holds when the script runs: the request, and whether
    the button was clicked. *)
Record Inputs : Type := MkInputs
  { request : Request;
    generate_btn : bool }.

(** ** The text-generation service and the clock

    [chat n prompt] is what the [n]-th request of the session gets for
    [prompt]: the message content, or an exception with its text.  The
    service need not answer the same prompt twice alike.  [clock n] is
    what [time.time()] reads once [n] requests have been made; rounding
    is done on rationals. *)
Inductive reply : Type :=
| Content (text : str)
| Raise (message : str).

Record World : Type := MkWorld
  { chat : nat -> str -> reply;
    clock : nat -> Q }.

(** A computation that may send requests and may raise.  The state is the
    list of prompts sent so far, oldest first. *)
Inductive outcome (A : Type) : Type :=
| Returned (a : A)
| Raised (message : str).

Arguments Returned {A} a.
Arguments Raised {A} message.

Definition Run (A : Type) : Type := list str -> outcome A * list str.

Definition ret {A : Type} (a : A) : Run A := fun sent => (Returned a, sent).

Definition bind {A B : Type} (m : Run A) (f : A -> Run B) : Run B :=
  fun sent =>
    match m sent with
    | (Returned a, sent') => f a sent'
    | (Raised e, sent') => (Raised e, sent')
    end.

Notation "x <- m ;; k" := (bind m (fun x => k))
  (at level 61, m at next level, right associativity).

(** [client.chat.completions.create(...).choices[0].message.content] *)
Definition completion (w : World) (prompt : str) : Run str :=
  fun sent =>
    match chat w (length sent) prompt with
    | Content text => (Returned text, sent ++ [prompt])
    | Raise e => (Raised e, sent ++ [prompt])
    end.

Definition time_time (w : World) : Run Q :=
  fun sent => (Returned (clock w (length sent)), sent).

Definition round_half_even (x : Q) : Z :=
  let f := Qfloor x in
  match Qcompare (x - inject_Z f)%Q (1 # 2)%Q with
  | Lt => f
  | Gt => (f + 1)%Z
  | Eq => if Z.even f then f else (f + 1)%Z
  end.

(** [round(x, 2)] *)
Definition round2 (x : Q) : Q := Qmake (round_half_even (x * 100)%Q) 100.

(** ** The multi-step agent (app.py, lines 57-108) *)

Definition plan_prompt (r : Request) : str :=
  [NL] ++ py "    You are an expert LinkedIn strategist. " ++ [NL]
  ++ py "    First, outline a brief plan for " ++ str_of_int (post_count r)
  ++ py " " ++ tone_lower (tone r) ++ py " posts in "
  ++ language_name (language r) ++ py ", " ++ [NL]
  ++ py "    about " ++ [QUOTE] ++ topic r ++ [QUOTE] ++ py ", targeting "
  ++ (if truthy (audience r) then audience r
      else py "a general professional audience")
  ++ py "." ++ [NL]
  ++ py "    Each plan should describe style, structure, and key points."
  ++ [NL] ++ py "    ".

Definition gen_prompt (r : Request) (plan : str) : str :=
  [NL] ++ py "    Based on this plan:" ++ [NL] ++ plan ++ [NL] ++ [NL]
  ++ py "    Write " ++ str_of_int (post_count r) ++ py " LinkedIn posts in "
  ++ language_name (language r) ++ py "." ++ [NL]
  ++ py "    Keep them " ++ length_lower (length_ r) ++ py " and "
  ++ tone_lower (tone r) ++ py "." ++ [NL]
  ++ py "    Each post should be natural, engaging, and professional." ++ [NL]
  ++ py "    Do not repeat wording." ++ [NL] ++ py "    ".

Definition extras_prompt (r : Request) : str :=
  [NL] ++ py "        For the topic " ++ [QUOTE] ++ topic r ++ [QUOTE]
  ++ py ", suggest:" ++ [NL]
  ++ py "        - Relevant hashtags (if " ++ str_of_bool (hashtags r)
  ++ py ")" ++ [NL]
  ++ py "        - A short call-to-action line (if " ++ str_of_bool (cta r)
  ++ py ")" ++ [NL]
  ++ py "        Output clearly." ++ [NL] ++ py "        ".

Definition Result : Type := (list str * str * Q)%type.

Definition generate_posts (w : World) (r : Request) : Run Result :=
  start_time <- time_time w ;;
  plan <- completion w (plan_prompt r) ;;
  posts_raw <- completion w (gen_prompt r plan) ;;
  let posts := split_posts posts_raw (post_count r) in
  extras <- (if hashtags r || cta r then completion w (extras_prompt r)
             else ret []) ;;
  let posts := map clean_output posts in
  end_time <- time_time w ;;
  ret (posts, extras, round2 (end_time - start_time)%Q).

(** ** The page (app.py, lines 113-159)

    [st.session_state.history] lives as long as the session; the script
    body runs once per interaction and emits elements to the page.  The
    process is taken past the credential check of lines 8-11.
    [history.append(posts)] stores the very list the run returned; nothing
    changes that list afterwards, so an entry is given by its value. *)

Inductive element : Type :=
| st_warning (body : str)
| st_error (body : str)
| st_subheader (body : str)
| st_markdown (body : str)
| st_write (body : str)
| st_caption (body : str)
| st_download_button (label data file_name : str)
| st_info_generated (latency : Q)
| st_column (index : nat) (body : list element)
| st_expander (label : str) (body : list element).

Record State : Type := MkState
  { history : list (list str);
    sent : list str }.

(** Lines 41-42, and no request made yet. *)
Definition initial : State := MkState [] [].

Fixpoint enumerate {A : Type} (start : nat) (l : list A) : list (nat * A) :=
  match l with
  | [] => []
  | x :: l' => (start, x) :: enumerate (S start) l'
  end.

Definition str_of_nat (n : nat) : str := str_of_int (Z.of_nat n).

(** [len(s.split())] *)
Fixpoint count_words (in_word : bool) (s : str) : nat :=
  match s with
  | [] => 0
  | c :: s' =>
      if Unicode.isspace c then count_words false s'
      else if in_word then count_words true s'
      else S (count_words true s')
  end.

Definition show_post (numbered : nat * str) : element :=
  let '(i, post) := numbered in
  st_column ((i - 1) mod 3)
    [ st_markdown (py "### " ++ [128204%N] ++ py " Option " ++ str_of_nat i);
      st_write post;
      st_caption (py "Words: " ++ str_of_nat (count_words false post)
                  ++ py " | Characters: " ++ str_of_nat (length post));
      st_download_button
        ([11015%N; 65039%N] ++ py " Download Option " ++ str_of_nat i)
        post
        (py "linkedin_post_" ++ str_of_nat i ++ py ".txt") ].

Definition show_results (r : Result) : list element :=
  let '(posts, extras, latency) := r in
  [st_subheader ([128221%N] ++ py " Generated LinkedIn Posts")]
  ++ map show_post (enumerate 1 posts)
  ++ (if truthy extras
      then [ st_markdown (py "---");
             st_subheader ([128278%N] ++ py " Suggestions");
             st_write extras ]
      else [])
  ++ [st_info_generated latency].

Definition enter_a_topic : str := [9888%N; 65039%N] ++ py " Please enter a topic.".

Definition error_message (e : str) : str := [10060%N] ++ py " Error: " ++ e.

(** Lines 113-149. *)
Definition run_generator (w : World) (i : Inputs) (st : State)
    : State * list element :=
  if generate_btn i then
    if negb (truthy (topic (request i))) then (st, [st_warning enter_a_topic])
    else
      match generate_posts w (request i) (sent st) with
      | (Returned (posts, extras, latency), sent') =>
          (MkState (history st ++ [posts]) sent',
           show_results (posts, extras, latency))
      | (Raised e, sent') =>
          (MkState (history st) sent', [st_error (error_message e)])
      end
  else (st, []).

(** [history[:-1]]: the runs the page lists as previous ones. *)
Definition list_past (h : list (list str)) : list (list str) :=
  slice_to (-1) h.

Definition show_option (numbered : nat * str) : element :=
  let '(j, p) := numbered in
  st_markdown (py "- **Option " ++ str_of_nat j ++ py ":** "
               ++ slice_to 80 p ++ py "...").

Definition show_run (numbered : nat * list str) : list element :=
  let '(i, posts) := numbered in
  st_markdown (py "**Run " ++ str_of_nat i ++ py ":**")
  :: map show_option (enumerate 1 posts).

(** Lines 154-159. *)
Definition show_history (h : list (list str)) : list element :=
  match h with
  | [] => []
  | _ :: _ =>
      [st_expander ([128220%N] ++ py " View Previous Generations")
                   (flat_map show_run (enumerate 1 (list_past h)))]
  end.

(** One run of the script body. *)
Definition script (w : World) (i : Inputs) (st : State) : State * list element :=
  let '(st', page) := run_generator w i st in
  (st', page ++ show_history (history st')).

(** A session: the script body run once per interaction, in order. *)
Fixpoint session (w : World) (interactions : list Inputs) (st : State) : State :=
  match interactions with
  | [] => st
  | i :: rest => session w rest (fst (script w i st))
  end.

(** The result of the pipeline when an interaction runs it to the end. *)
Definition pipeline_result (w : World) (i : Inputs) (st : State) : option Result :=
  if generate_btn i && truthy (topic (request i)) then
    match fst (generate_posts w (request i) (sent st)) with
    | Returned r => Some r
    | Raised _ => None
    end
  else None.

(** The posts of the successful pipeline runs of a session, in order. *)
Fixpoint successful_runs (w : World) (interactions : list Inputs) (st : State)
    : list (list str) :=
  match interactions with
  | [] => []
  | i :: rest =>
      match pipeline_result w i st with
      | Some (posts, _, _) => [posts]
      | None => []
      end ++ successful_runs w rest (fst (script w i st))
  end.

(** * Notions used to state the properties *)

(** ** Enumerating a character table *)

(** The code points of a list of intervals, one by one. *)
Definition interval (lo hi : N) : list N :=
  map N.of_nat (seq (N.to_nat lo) (N.to_nat hi + 1 - N.to_nat lo)).

Definition members (rs : list (N * N)) : list N :=
  flat_map (fun r => interval (fst r) (snd r)) rs.

(** What IGNORECASE accepts for some ASCII letter: the letters in either
    case, and U+0130, U+0131, U+017F, U+212A. *)
Definition letter_like : list (N * N) :=
  [(65, 90); (97, 122); (304, 305); (383, 383); (8490, 8490)]%N.

(** ** Assembling the result of a scan *)

Module Scan.

(** Putting a skipped character in front of what a scan returns. *)
Definition push (c : char) (x : list (str * str) * str) : list (str * str) * str :=
  match x with
  | ([], rest) => ([], c :: rest)
  | ((gap, m) :: pieces, rest) => ((c :: gap, m) :: pieces, rest)
  end.

(** How [sub] and [split] assemble their result. *)
Definition render (repl : str) (x : list (str * str) * str) : str :=
  concat (map (fun piece => fst piece ++ repl) (fst x)) ++ snd x.

Definition pieces_of (x : list (str * str) * str) : list str :=
  map fst (fst x) ++ [snd x].

Definition push_head (c : char) (l : list str) : list str :=
  match l with
  | [] => [[c]]
  | p :: l' => (c :: p) :: l'
  end.

End Scan.

(** The character a position has behind it after reading [s]. *)
Fixpoint final (prev : option char) (s : str) : option char :=
  match s with
  | [] => prev
  | c :: s' => final (Some c) s'
  end.

(** ** Occurrences of a banned word *)

(** [m] is [w] up to case, as IGNORECASE compares. *)
Fixpoint same_ignoring_case (l : list ascii) (m : str) : bool :=
  match l, m with
  | [], [] => true
  | a :: l', x :: m' => Sre.lit_matches true a x && same_ignoring_case l' m'
  | _, _ => false
  end.

Definition ci_equal (w : string) (m : str) : bool :=
  same_ignoring_case (list_ascii_of_string w) m.

(** [text] has [w], up to case, as a whole word: neither preceded nor
    followed by a word character. *)
Definition whole_word_occurrence (w : string) (text : str) : Prop :=
  exists pre m post,
    text = pre ++ m ++ post /\
    ci_equal w m = true /\
    Sre.word_before (final None pre) = false /\
    Sre.word_here post = false.

(** ** Words and gaps

    A text cut into its maximal runs of word characters and, one by one,
    the characters between them. *)
Fixpoint runs (s : str) : list str :=
  match s with
  | [] => []
  | c :: s' =>
      if Unicode.is_word c then
        match runs s' with
        | (d :: r) :: segs =>
            if Unicode.is_word d then (c :: d :: r) :: segs
            else [c] :: (d :: r) :: segs
        | segs => [c] :: segs
        end
      else [c] :: runs s'
  end.

Definition is_gap (r : str) : Prop :=
  exists c, r = [c] /\ Unicode.is_word c = false.

Definition is_run (r : str) : Prop :=
  r <> [] /\ Forall (fun c => Unicode.is_word c = true) r.

(** A cutting in which every word is a whole one. *)
Fixpoint cut_at_words (segs : list str) : Prop :=
  match segs with
  | [] => True
  | r :: segs' =>
      (is_gap r \/ (is_run r /\ Sre.word_here (concat segs') = false))
      /\ cut_at_words segs'
  end.

(** What the filter does to one piece of a cutting, for one word. *)
Definition censor (w : string) (r : str) : str :=
  if ci_equal w r then removed else r.

Definition censor_cut (w : string) (r : str) : list str :=
  if ci_equal w r then [py "["; py "removed"; py "]"] else [r].

Definition censor_all (ws : list string) (segs : list str) : list str :=
  fold_left (fun segs w => flat_map (censor_cut w) segs) ws segs.

(** No piece of a cutting is the word. *)
Definition free_of (w : string) (segs : list str) : Prop :=
  forall m, In m segs -> ci_equal w m = false.

(** The words the filter is sound for: made of ASCII letters, and not the
    word inside the placeholder. *)
Definition plain_word (w : string) : Prop :=
  list_ascii_of_string w <> [] /\
  Forall (fun a => Sre.iscased (N_of_ascii a) = true) (list_ascii_of_string w) /\
  ci_equal w (py "removed") = false.

(** ** Numbering marks *)

Fixpoint drop_while (p : char -> bool) (s : str) : str :=
  match s with
  | c :: s' => if p c then drop_while p s' else s
  | [] => []
  end.

(** The position after a numbering mark at the head of [s], if there is
    one. *)
Definition after_mark (s : str) : option Sre.position :=
  match s with
  | c :: s1 =>
      if (c =? 10)%N then
        match drop_while Unicode.isspace s1 with
        | d :: s2 =>
            if Unicode.isdecimal d then
              match drop_while Unicode.isdecimal s2 with
              | t :: s3 =>
                  if ((t =? 46) || (t =? 41))%N then Some (Some t, s3) else None
              | [] => None
              end
            else None
        | [] => None
        end
      else None
  | [] => None
  end.

(** A numbering mark: a newline, white space, digits, and [.] or [)]. *)
Definition Mark (m : str) : Prop :=
  exists ws ds t,
    m = NL :: ws ++ ds ++ [t] /\
    Forall (fun c => Unicode.isspace c = true) ws /\
    ds <> [] /\
    Forall (fun c => Unicode.isdecimal c = true) ds /\
    (t = 46%N \/ t = 41%N).

(** No mark begins inside [pre] when [pre] is followed by [rest]. *)
Definition no_mark_within (pre rest : str) : Prop :=
  forall p1 p2 m tail,
    pre = p1 ++ p2 -> p2 <> [] -> Mark m -> p2 ++ rest <> m ++ tail.

(** The text that [frags] and the marks between them come from. *)
Fixpoint weave (frags marks : list str) : str :=
  match frags, marks with
  | f :: frags', m :: marks' => f ++ m ++ weave frags' marks'
  | f :: _, [] => f
  | [], _ => []
  end.

(** The fragments of a draft that are long enough to be posts. *)
Definition usable (raw : str) : list str :=
  filter (fun p => (30 <? length (strip p))%nat) (Sre.split numbering raw).

(** [weave segs marks] is a numbered list whose segments are [segs]: the
    marks are marks, and no other mark begins inside a segment. *)
Fixpoint numbered (segs marks : list str) : Prop :=
  match segs, marks with
  | [seg], [] => no_mark_within seg []
  | seg :: segs', m :: marks' =>
      Mark m /\ no_mark_within seg (m ++ weave segs' marks')
      /\ numbered segs' marks'
  | _, _ => False
  end.

(** ** The word around an occurrence *)

Fixpoint take_while (p : char -> bool) (s : str) : str :=
  match s with
  | c :: s' => if p c then c :: take_while p s' else []
  | [] => []
  end.

(** The word characters [s] ends with, and what is before them. *)
Definition word_tail (s : str) : str := rev (take_while Unicode.is_word (rev s)).
Definition before_word_tail (s : str) : str :=
  rev (drop_while Unicode.is_word (rev s)).

(** The word characters [s] begins with, and what is after them. *)
Definition word_head (s : str) : str := take_while Unicode.is_word s.
Definition after_word_head (s : str) : str := drop_while Unicode.is_word s.

(** ** The pipeline *)

(** One of the requests of a run started after [n] requests raises [e]:
    the plan request, or the draft request after a plan, or the extras
    request after both when extras are asked for. *)
Definition call_raises (w : World) (r : Request) (n : nat) (e : str) : Prop :=
  chat w n (plan_prompt r) = Raise e
  \/ (exists plan,
        chat w n (plan_prompt r) = Content plan
        /\ chat w (S n) (gen_prompt r plan) = Raise e)
  \/ (exists plan raw,
        chat w n (plan_prompt r) = Content plan
        /\ chat w (S n) (gen_prompt r plan) = Content raw
        /\ hashtags r || cta r = true
        /\ chat w (S (S n)) (extras_prompt r) = Raise e).

(** The extras field as the specification states it: present exactly when
    asked for, and otherwise something other than the empty string. *)
Definition extras_as_specified : Prop :=
  forall w r sent posts extras latency sent',
    generate_posts w r sent = (Returned (posts, extras, latency), sent') ->
    (truthy extras = true <-> hashtags r || cta r = true)
    /\ (hashtags r || cta r = false -> extras <> []).

(** ** Examples *)

(** A service that gives the replies of a list, one per request, and is
    down after them; the clock ticks once per request. *)
Definition scripted (replies : list reply) : World :=
  MkWorld (fun n _ => nth n replies (Raise (py "service unavailable")))
          (fun n => inject_Z (Z.of_nat n)).

Definition asking (topic : str) (hashtags cta : bool) : Request :=
  MkRequest topic Professional [] Short English hashtags cta 3.

Definition click (r : Request) : Inputs := MkInputs r true.

Definition three_posts_draft : str :=
  py "1. Ship early, learn faster than the rest." ++ [NL]
  ++ py "2) Talk to ten customers before you write code." ++ [NL]
  ++ py "3. Hiring is the product you build for your team.".

Definition preamble : str := py "Here are three posts about your topic:".

Definition draft_after_preamble : str :=
  py " Ship early, learn faster than the rest." ++ [NL]
  ++ py "2. Talk to ten customers before you write code.".

(** A session of three clicks: a run, a click with no topic, a run. *)
Definition two_runs_world : World :=
  scripted [ Content (py "plan"); Content three_posts_draft;
             Content (py "#growth");
             Content (py "plan"); Content (preamble ++ [NL] ++ py "1."
                                           ++ draft_after_preamble);
             Content (py "#hiring") ].

Definition two_runs_clicks : list Inputs :=
  [ click (asking (py "growth") true false);
    click (asking [] true true);
    click (asking (py "hiring") false true) ].

(** A draft with banned words, as whole words and inside longer ones. *)
Definition rude_draft : str :=
  py "1. I hate meetings that could have been an email." ++ [NL]
  ++ py "2. KILL the backlog before it grows any further." ++ [NL]
  ++ py "3. Skills beat hateful shortcuts, so keep shipping.".

Definition rude_world : World :=
  scripted [Content (py "plan"); Content rude_draft; Content (py "#growth")].

(** * Notions for further properties of the program *)

(** ** The filter *)

(** The loop of [clean_output], over any list of words. *)
Definition clean_with (ws : list string) (text : str) : str :=
  fold_left (fun text w => Sre.sub (word_pattern w) removed text true) ws text.

(** Replacing a piece that is any of the words. *)
Definition censor_any (ws : list string) (r : str) : str :=
  if existsb (fun w => ci_equal w r) ws then removed else r.

(** ** Parts and ends of a text *)

Definition part_of (p text : str) : Prop := exists a b, text = a ++ p ++ b.

Definition blank_end (o : option char) : bool :=
  match o with
  | Some c => Unicode.isspace c
  | None => true
  end.

(** Not empty, and without white space at either end. *)
Definition trimmed (p : str) : Prop :=
  blank_end (hd_error p) = false /\ blank_end (final None p) = false.

(** How many words of [text] are banned words. *)
Definition banned_words_in (text : str) : nat :=
  length (filter (fun r => existsb (fun w => ci_equal w r) banned_words)
                 (runs text)).

(** ** Drafts for the examples *)

Definition two_posts_draft : str :=
  py "1. Ship early, learn faster than the rest." ++ [NL]
  ++ py "2. Too short." ++ [NL]
  ++ py "3. Hiring is the product you build for your team.".

Definition one_line_draft : str :=
  py "1. Ship early, learn faster. 2. Talk to customers. 3. Hire well.".

(** ** Requests *)

(** The requests a run makes: what it adds to the log. *)
Definition requests_of (w : World) (r : Request) (sent : list str) : list str :=
  skipn (length sent) (snd (generate_posts w r sent)).

(** Whether an interaction starts a run: a click with a topic. *)
Definition starts_run (i : Inputs) : bool :=
  generate_btn i && truthy (topic (request i)).

Definition runs_started (interactions : list Inputs) : nat :=
  length (filter starts_run interactions).

(** ** What is on the page *)

(** The columns the cards of a page are put in, in order. *)
Definition card_columns (page : list element) : list nat :=
  flat_map (fun e => match e with st_column k _ => [k] | _ => [] end) page.

(** The download buttons of the cards: label, data and file name. *)
Definition downloads (page : list element) : list (str * str * str) :=
  flat_map
    (fun e =>
       match e with
       | st_column _ body =>
           flat_map (fun b => match b with
                              | st_download_button l d f => [(l, d, f)]
                              | _ => []
                              end) body
       | _ => []
       end) page.

Definition suggestions_title : str := [128278%N] ++ py " Suggestions".


Definition blank_topic : str := py "   ".

(** * The model at work

    Each of these is what CPython 3.11 returns for the same input. *)

Example filter_keeps_longer_word :
  clean_output (py "hateful") = py "hateful".
Proof. vm_compute. reflexivity. Qed.

Example filter_ignores_case :
  clean_output (py "a hate, b Kill.") = py "a [removed], b [removed].".
Proof. vm_compute. reflexivity. Qed.

Example filter_underscore_is_word_character :
  clean_output (py "hate_") = py "hate_".
Proof. vm_compute. reflexivity. Qed.

Example filter_hyphen_is_not :
  clean_output (py "hate-speech") = py "[removed]-speech".
Proof. vm_compute. reflexivity. Qed.

(** The Kelvin sign lowers to k, and the dotless i is a fix of i. *)
Example filter_kelvin_sign :
  clean_output ([8490%N] ++ py "ill") = py "[removed]".
Proof. vm_compute. reflexivity. Qed.

Example filter_dotless_i :
  clean_output (py "sh" ++ [305%N] ++ py "t!") = py "[removed]!".
Proof. vm_compute. reflexivity. Qed.

(** U+00E9 is a word character. *)
Example filter_after_accented_letter :
  clean_output ([233%N] ++ py "hate") = [233%N] ++ py "hate".
Proof. vm_compute. reflexivity. Qed.

Example filter_overlapping_words :
  clean_output (py "fuckill") = py "fuckill".
Proof. vm_compute. reflexivity. Qed.

Example split_at_marks :
  Sre.split numbering (py "intro" ++ [NL] ++ py "1. a" ++ [NL] ++ py " 2) b")
  = [py "intro"; py " a"; py " b"].
Proof. vm_compute. reflexivity. Qed.

Example split_needs_newline_and_closing :
  Sre.split numbering
    (py "1. a" ++ [NL; NL; 9%N] ++ py " 12. b" ++ [NL] ++ py "3 c")
  = [py "1. a"; py " b" ++ [NL] ++ py "3 c"].
Proof. vm_compute. reflexivity. Qed.

Example split_empty_fragments :
  Sre.split numbering (py "a" ++ [NL] ++ py "1." ++ [NL] ++ py "2.")
  = [py "a"; []; []].
Proof. vm_compute. reflexivity. Qed.

Example whole_word_in_input :
  whole_word_occurrence "hate" (py "We HATE spam").
Proof.
  exists (py "We "), (py "HATE"), (py " spam").
  repeat split; vm_compute; reflexivity.
Qed.

(** * Facts about lists of characters *)

Module ListFacts.

Lemma take_drop_while p s : take_while p s ++ drop_while p s = s.
Proof.
  induction s as [|c s IH]; [reflexivity|].
  simpl. destruct (p c); simpl; [now rewrite IH|reflexivity].
Qed.

Lemma take_while_all p s : Forall (fun c => p c = true) (take_while p s).
Proof.
  induction s as [|c s IH]; simpl; [constructor|].
  destruct (p c) eqn:E; now constructor.
Qed.

Lemma drop_while_head p s :
  match drop_while p s with c :: _ => p c = false | [] => True end.
Proof.
  induction s as [|c s IH]; simpl; [exact I|].
  destruct (p c) eqn:E; [assumption|exact E].
Qed.

Lemma drop_while_length p s : length (drop_while p s) <= length s.
Proof.
  induction s as [|c s IH]; simpl; [lia|].
  destruct (p c); simpl; lia.
Qed.

Lemma drop_while_all p ws s :
  Forall (fun c => p c = true) ws -> drop_while p (ws ++ s) = drop_while p s.
Proof.
  induction 1 as [|c ws Hc _ IH]; [reflexivity|].
  cbn [app drop_while]. now rewrite Hc.
Qed.

Lemma drop_while_stop p c s : p c = false -> drop_while p (c :: s) = c :: s.
Proof. intros H. cbn [drop_while]. now rewrite H. Qed.

Lemma final_app prev a b : final prev (a ++ b) = final (final prev a) b.
Proof. revert prev. induction a; simpl; auto. Qed.

Lemma final_rev prev s :
  final prev (rev s) = match s with [] => prev | c :: _ => Some c end.
Proof.
  destruct s as [|c s]; [reflexivity|].
  simpl. now rewrite final_app.
Qed.

End ListFacts.

(** * Properties of the matcher *)

Module SreFacts.

Import Sre Scan.

Lemma search_eq ic pat adv prev s :
  search ic pat adv prev s =
  match match_at ic pat adv prev s with
  | Some (prev', s') => Some (Hit [] (firstn (length s - length s') s) prev' s')
  | None =>
      match s with
      | [] => None
      | x :: s' => option_map (skip_one x) (search ic pat false (Some x) s')
      end
  end.
Proof. destruct s; reflexivity. Qed.

Lemma scan_loop_eq ic f pat adv prev s :
  scan_loop ic (S f) pat adv prev s =
  match search ic pat adv prev s with
  | None => ([], s)
  | Some h =>
      let '(pieces, rest) :=
        scan_loop ic f pat (Nat.eqb (length (matched h)) 0)
                  (last_seen h) (remaining h) in
      ((skipped h, matched h) :: pieces, rest)
  end.
Proof. reflexivity. Qed.

(** No match here: the character is skipped and the scan goes on behind it. *)
Lemma scan_loop_skip ic f pat adv prev c s :
  match_at ic pat adv prev (c :: s) = None ->
  scan_loop ic (S f) pat adv prev (c :: s) =
  push c (scan_loop ic (S f) pat false (Some c) s).
Proof.
  intros Hno. rewrite !scan_loop_eq.
  rewrite (search_eq ic pat adv prev (c :: s)), Hno.
  destruct (search ic pat false (Some c) s) as [h|]; simpl; [|reflexivity].
  destruct (scan_loop ic f pat _ (last_seen h) (remaining h)) as [pieces rest].
  reflexivity.
Qed.

(** A match here: it is recorded with an empty gap and the scan goes on
    after it. *)
Lemma scan_loop_hit ic f pat adv prev s prev' s' :
  match_at ic pat adv prev s = Some (prev', s') ->
  scan_loop ic (S f) pat adv prev s =
  let m := firstn (length s - length s') s in
  let '(pieces, rest) := scan_loop ic f pat (Nat.eqb (length m) 0) prev' s' in
  (([], m) :: pieces, rest).
Proof.
  intros Hm. rewrite scan_loop_eq, search_eq, Hm. reflexivity.
Qed.

Lemma scan_loop_end ic f pat adv prev :
  match_at ic pat adv prev [] = None ->
  scan_loop ic (S f) pat adv prev [] = ([], []).
Proof.
  intros Hno. rewrite scan_loop_eq, search_eq, Hno. reflexivity.
Qed.

Lemma sub_render pat repl s ic :
  sub pat repl s ic = render repl (scan ic pat s).
Proof.
  unfold sub, render. destruct (scan ic pat s); reflexivity.
Qed.

Lemma split_pieces pat s : split pat s = pieces_of (scan false pat s).
Proof.
  unfold split, pieces_of. destruct (scan false pat s); reflexivity.
Qed.

Lemma render_push repl c x : render repl (push c x) = c :: render repl x.
Proof.
  destruct x as [[|[gap m] pieces] rest]; reflexivity.
Qed.

Lemma render_hit repl m x :
  render repl (let '(pieces, rest) := x in (([], m) :: pieces, rest))
  = repl ++ render repl x.
Proof.
  destruct x as [pieces rest]. unfold render. simpl.
  now rewrite <- app_assoc.
Qed.

Lemma pieces_of_push c x : pieces_of (push c x) = push_head c (pieces_of x).
Proof.
  destruct x as [[|[gap m] pieces] rest]; reflexivity.
Qed.

Lemma pieces_of_hit (m : str) x :
  pieces_of (let '(pieces, rest) := x in (([], m) :: pieces, rest))
  = [] :: pieces_of x.
Proof. destruct x as [pieces rest]. reflexivity. Qed.

(** ** The scan never runs out of rounds *)

Lemma repeat_one_suffix ic a k r : forall s lo prev,
  repeat_one ic a lo prev s k = Some r ->
  exists prev' s', k prev' s' = Some r /\ length s' <= length s.
Proof.
  induction s as [|x s IH]; intros lo prev H; cbn [repeat_one] in H.
  - destruct (Nat.eqb lo 0); [eauto|discriminate].
  - destruct (atom_matches ic a x).
    + destruct (repeat_one ic a (pred lo) (Some x) s k) as [r'|] eqn:E.
      * inversion H; subst r'. apply IH in E.
        destruct E as (prev' & s' & Hk & Hlen).
        exists prev', s'. split; [assumption|simpl; lia].
      * destruct (Nat.eqb lo 0); [eauto|discriminate].
    + destruct (Nat.eqb lo 0); [eauto|discriminate].
Qed.

(** A match ends at or after the position it starts from. *)
Lemma exec_suffix ic r : forall pat prev s k,
  exec ic pat prev s k = Some r ->
  exists prev' s', k prev' s' = Some r /\ length s' <= length s.
Proof.
  induction pat as [|o pat IH]; intros prev s k H; [eauto|].
  destruct o as [|a|lo a]; cbn [exec] in H.
  - destruct (at_boundary prev s); [now apply IH in H|discriminate].
  - destruct s as [|x s]; [discriminate|].
    destruct (atom_matches ic a x); [|discriminate].
    apply IH in H. destruct H as (prev' & s' & Hk & Hlen).
    exists prev', s'. split; [assumption|simpl; lia].
  - apply repeat_one_suffix in H. destruct H as (p1 & s1 & H & Hlen1).
    apply IH in H. destruct H as (prev' & s' & Hk & Hlen).
    exists prev', s'. split; [assumption|lia].
Qed.

Lemma match_at_length ic pat adv prev s p s' :
  match_at ic pat adv prev s = Some (p, s') ->
  length s' <= length s /\ (adv = true -> length s' < length s).
Proof.
  unfold match_at. intros H. apply exec_suffix in H.
  destruct H as (prev' & s'' & Hk & Hlen). unfold success in Hk.
  destruct (adv && Nat.eqb (length s'') (length s)) eqn:E; [discriminate|].
  inversion Hk; subst. split; [assumption|].
  intros ->. cbn [andb] in E. apply Nat.eqb_neq in E. lia.
Qed.

Lemma matched_length ic pat adv prev s p s' :
  match_at ic pat adv prev s = Some (p, s') ->
  length (firstn (length s - length s') s) + length s' = length s
  /\ (adv = true -> firstn (length s - length s') s <> []).
Proof.
  intros E. apply match_at_length in E. destruct E as [Hle Hlt].
  rewrite length_firstn. split; [lia|].
  intros Hadv Hnil. apply (f_equal (@length _)) in Hnil.
  rewrite length_firstn in Hnil. specialize (Hlt Hadv).
  cbn [length] in Hnil. lia.
Qed.

(** What a search finds, measured. *)
Lemma search_length ic pat : forall s adv prev h,
  search ic pat adv prev s = Some h ->
  length (skipped h) + length (matched h) + length (remaining h) = length s
  /\ (adv = true -> skipped h = [] -> matched h <> []).
Proof.
  induction s as [|x s IH]; intros adv prev h; rewrite search_eq;
    destruct (match_at ic pat adv prev _) as [[p s']|] eqn:E;
    try discriminate.
  - intros H. inversion H; subst h. cbn [skipped matched remaining].
    apply matched_length in E. destruct E as [Hsum Hne].
    split; [exact Hsum|auto].
  - intros H. inversion H; subst h. cbn [skipped matched remaining].
    apply matched_length in E. destruct E as [Hsum Hne].
    split; [exact Hsum|auto].
  - destruct (search ic pat false (Some x) s) as [h'|] eqn:E'; [|discriminate].
    intros H. inversion H; subst h.
    apply IH in E'. destruct E' as [Hsum _].
    cbn [skip_one skipped matched remaining length]. split; [lia|].
    intros _ Hnil. discriminate.
Qed.

(** Every round uses up a character, or comes after an empty match that
    the next round may not repeat: more rounds than twice the length and
    two change nothing. *)
Lemma scan_loop_stable ic pat : forall n (s : str) (adv : bool) prev f f',
  2 * length s + (if adv then 0 else 1) <= n ->
  n < f -> n < f' ->
  scan_loop ic f pat adv prev s = scan_loop ic f' pat adv prev s.
Proof.
  induction n as [|n IH]; intros s adv prev f f' Hn Hf Hf';
    (destruct f as [|f]; [lia|]); (destruct f' as [|f']; [lia|]);
    rewrite !scan_loop_eq;
    destruct (search ic pat adv prev s) as [h|] eqn:E; try reflexivity;
    apply search_length in E; destruct E as [Hsum Hadv].
  - (* no round is left only for the empty text after an empty match *)
    exfalso. destruct adv; [|lia].
    assert (length s = 0) by lia.
    destruct (skipped h) eqn:Es; [|simpl in Hsum; lia].
    specialize (Hadv eq_refl eq_refl).
    destruct (matched h); [congruence|simpl in Hsum; lia].
  - rewrite (IH (remaining h) _ (last_seen h) f f'); [reflexivity| |lia|lia].
    destruct (matched h) as [|c m] eqn:Em; cbn [length Nat.eqb].
    + destruct (skipped h) as [|c g] eqn:Es.
      * destruct adv; [now specialize (Hadv eq_refl eq_refl)|].
        cbn [length] in Hsum. lia.
      * cbn [length] in Hsum. lia.
    + cbn [length] in Hsum. lia.
Qed.

Lemma scan_enough ic pat (s : str) f :
  2 * length s + 2 <= f ->
  scan_loop ic f pat false None s = scan ic pat s.
Proof.
  intros Hf. unfold scan.
  apply (scan_loop_stable ic pat (2 * length s + 1)); lia.
Qed.

End SreFacts.

(** * Facts about the character tables

    These are all the proofs below use of the tables: white space and
    decimal digits are apart, the newline is white space, [.] and [)] are
    not digits, the brackets are not word characters, and what IGNORECASE
    accepts for an ASCII letter is a word character. *)

Module UnicodeFacts.

Import Unicode.
Local Open Scope N_scope.

Ltac split_tests :=
  repeat match goal with
    | H : context [N.leb ?a ?b] |- _ => destruct (N.leb_spec a b); simpl in H
    | H : context [N.eqb ?a ?b] |- _ => destruct (N.eqb_spec a b); simpl in H
    | |- context [N.leb ?a ?b] => destruct (N.leb_spec a b); simpl
    | |- context [N.eqb ?a ?b] => destruct (N.eqb_spec a b); simpl
    end.

Lemma interval_complete lo hi c : lo <= c -> c <= hi -> In c (interval lo hi).
Proof.
  intros Hlo Hhi. unfold interval. apply in_map_iff.
  exists (N.to_nat c). split; [apply N2Nat.id|].
  apply in_seq. lia.
Qed.

Lemma members_complete rs c : in_ranges rs c = true -> In c (members rs).
Proof.
  induction rs as [|[lo hi] rs IH]; simpl; [discriminate|].
  intros H. apply in_or_app.
  apply orb_true_iff in H. destruct H as [H|H]; [left|right; auto].
  apply andb_true_iff in H. destruct H as [H1 H2].
  apply N.leb_le in H1, H2. now apply interval_complete.
Qed.

(** A property of all members of a table holds of whatever the table
    accepts; the premise is checked by evaluation. *)
Lemma by_members (P : N -> bool) rs c :
  forallb P (members rs) = true -> in_ranges rs c = true -> P c = true.
Proof.
  intros Hall Hin. apply members_complete in Hin.
  rewrite forallb_forall in Hall. now apply Hall.
Qed.

Lemma space_not_decimal c : isspace c = true -> isdecimal c = false.
Proof.
  intros H. apply negb_true_iff.
  revert H. apply (by_members (fun c => negb (isdecimal c))).
  vm_compute. reflexivity.
Qed.

Lemma decimal_not_space c : isdecimal c = true -> isspace c = false.
Proof.
  intros H. destruct (isspace c) eqn:E; [|reflexivity].
  apply space_not_decimal in E. congruence.
Qed.

Lemma decimal_not_closing c :
  isdecimal c = true -> ((c =? 46) || (c =? 41)) = false.
Proof.
  intros H. split_tests; subst; try reflexivity; vm_compute in H; discriminate.
Qed.

Lemma newline_is_space : isspace 10 = true.
Proof. reflexivity. Qed.

Lemma open_bracket_not_word : is_word 91 = false.
Proof. vm_compute. reflexivity. Qed.

Lemma close_bracket_not_word : is_word 93 = false.
Proof. vm_compute. reflexivity. Qed.

(** Whatever IGNORECASE accepts for an ASCII letter is a word character. *)
Lemma sre_lower_cased c :
  Sre.iscased c = true -> 97 <= sre_lower c <= 122.
Proof.
  unfold Sre.iscased, sre_lower. intros H.
  split_tests; simpl in *; try discriminate; lia.
Qed.

Lemma ignorecase_fixes_in lo v :
  In v (Sre.ignorecase_fixes lo) -> v = 305 \/ v = 383.
Proof.
  unfold Sre.ignorecase_fixes.
  destruct (lo =? 105); [|destruct (lo =? 115)]; simpl; intuition.
Qed.

Lemma sre_lower_letter_like x :
  97 <= sre_lower x <= 122 \/ sre_lower x = 305 \/ sre_lower x = 383 ->
  in_ranges letter_like x = true.
Proof.
  unfold sre_lower, letter_like, in_ranges. intros H.
  destruct (N.leb_spec 65 x), (N.leb_spec x 90); simpl in *;
    try (destruct (N.eqb_spec x 304); [subst; reflexivity|]);
    try (destruct (N.eqb_spec x 8490); [subst; reflexivity|]);
    split_tests; simpl; try reflexivity; lia.
Qed.

Lemma lit_matches_letter_like a x :
  Sre.iscased (N_of_ascii a) = true ->
  Sre.lit_matches true a x = true ->
  in_ranges letter_like x = true.
Proof.
  unfold Sre.lit_matches. intros Hc. rewrite Hc. simpl andb. cbv iota.
  intros H. apply existsb_exists in H. destruct H as [v [Hin Hv]].
  apply N.eqb_eq in Hv. apply sre_lower_letter_like. rewrite Hv.
  destruct Hin as [<-|Hin].
  - left. now apply sre_lower_cased.
  - right. now apply ignorecase_fixes_in in Hin.
Qed.

Lemma word_of_letter a x :
  Sre.iscased (N_of_ascii a) = true ->
  Sre.lit_matches true a x = true ->
  is_word x = true.
Proof.
  intros Hc Hm. apply (by_members is_word letter_like).
  - vm_compute. reflexivity.
  - now apply (lit_matches_letter_like a).
Qed.

End UnicodeFacts.

(** * The filter, word by word *)

Module FilterFacts.

Import Unicode Sre Scan ListFacts SreFacts UnicodeFacts.

Lemma same_length l : forall m,
  same_ignoring_case l m = true -> length m = length l.
Proof.
  induction l as [|a l IH]; intros [|x m]; simpl; try discriminate; auto.
  intros H. apply andb_true_iff in H. destruct H as [_ H]. f_equal. auto.
Qed.

Lemma same_all_word l : forall m,
  Forall (fun a => iscased (N_of_ascii a) = true) l ->
  same_ignoring_case l m = true ->
  Forall (fun c => is_word c = true) m.
Proof.
  induction l as [|a l IH]; intros [|x m] Hl; simpl; try discriminate; auto.
  intros H. apply andb_true_iff in H. destruct H as [Hx H].
  inversion Hl; subst. constructor; [now apply (word_of_letter a)|auto].
Qed.

(** A run of literals reads as many characters as it has letters. *)
Lemma exec_literals l : forall pat prev s k,
  exec true (map (fun a => ONE (LITERAL a)) l ++ pat) prev s k =
  if same_ignoring_case l (firstn (length l) s)
  then exec true pat (final prev (firstn (length l) s)) (skipn (length l) s) k
  else None.
Proof.
  induction l as [|a l IH]; intros pat prev s k.
  - reflexivity.
  - destruct s as [|x s]; [reflexivity|].
    cbn [map app exec atom_matches length firstn skipn same_ignoring_case final].
    destruct (lit_matches true a x); [|reflexivity].
    rewrite IH. reflexivity.
Qed.

Lemma match_at_word w adv prev s :
  let l := list_ascii_of_string w in
  let n := length l in
  l <> [] ->
  match_at true (word_pattern w) adv prev s =
  if at_boundary prev s
     && same_ignoring_case l (firstn n s)
     && at_boundary (final prev (firstn n s)) (skipn n s)
  then Some (final prev (firstn n s), skipn n s)
  else None.
Proof.
  intros l n Hl. unfold match_at, word_pattern. fold l.
  cbn [app exec].
  destruct (at_boundary prev s); [|reflexivity].
  rewrite exec_literals. fold n.
  destruct (same_ignoring_case l (firstn n s)) eqn:Hsame; [|reflexivity].
  cbn [exec andb].
  destruct (at_boundary _ (skipn n s)); [|reflexivity].
  unfold success.
  apply same_length in Hsame. fold n in Hsame.
  assert (Hn : n <> 0) by (unfold n; destruct l; simpl; congruence).
  assert (Hlen : n <= length s).
  { rewrite <- Hsame. rewrite length_firstn. lia. }
  replace (Nat.eqb (length (skipn n s)) (length s)) with false.
  - now rewrite andb_false_r.
  - symmetry. apply Nat.eqb_neq. rewrite length_skipn. lia.
Qed.

Lemma final_word prev r :
  r <> [] -> Forall (fun c => is_word c = true) r ->
  word_before (final prev r) = true.
Proof.
  revert prev. induction r as [|c r IH]; [congruence|].
  intros prev _ Hall. inversion Hall; subst. simpl.
  destruct r as [|d r]; [simpl; assumption|].
  apply IH; [congruence|assumption].
Qed.

Lemma word_here_run r rest :
  is_run r -> word_here (r ++ rest) = true.
Proof.
  intros [Hne Hall]. destruct r as [|c r]; [congruence|].
  inversion Hall; subst. assumption.
Qed.

Section OneWord.

Variable w : string.
Hypothesis w_plain : plain_word w.

Let l := list_ascii_of_string w.
Let P := word_pattern w.

Lemma l_not_nil : l <> [].
Proof. apply w_plain. Qed.

Lemma l_cased : Forall (fun a => iscased (N_of_ascii a) = true) l.
Proof. apply w_plain. Qed.

Lemma no_match_behind_word adv prev s :
  word_before prev = true -> word_here s = true ->
  match_at true P adv prev s = None.
Proof.
  intros Hp Hs. unfold P. rewrite match_at_word by apply l_not_nil.
  unfold at_boundary at 1. rewrite Hp, Hs. reflexivity.
Qed.

Lemma no_match_at_gap adv prev c s :
  is_word c = false -> match_at true P adv prev (c :: s) = None.
Proof.
  intros Hc. unfold P. rewrite match_at_word by apply l_not_nil.
  fold l. pose proof l_not_nil as Hne. pose proof l_cased as Hcs.
  destruct l as [|a l']; [congruence|].
  cbn [length firstn same_ignoring_case].
  inversion Hcs; subst.
  destruct (lit_matches true a c) eqn:E.
  - apply (word_of_letter a) in E; [congruence|assumption].
  - now rewrite andb_false_r.
Qed.

Lemma no_match_at_end adv prev : match_at true P adv prev [] = None.
Proof.
  unfold P. rewrite match_at_word by apply l_not_nil.
  fold l. pose proof l_not_nil as Hne.
  destruct l as [|a l']; [congruence|].
  cbn [length firstn same_ignoring_case]. now rewrite andb_false_r.
Qed.

Lemma gap_not_equal c : is_word c = false -> ci_equal w [c] = false.
Proof.
  intros Hc. unfold ci_equal. fold l.
  pose proof l_not_nil as Hne. pose proof l_cased as Hcs.
  destruct l as [|a l']; [congruence|]. inversion Hcs; subst.
  cbn [same_ignoring_case].
  destruct (lit_matches true a c) eqn:E; [|reflexivity].
  apply (word_of_letter a) in E; [congruence|assumption].
Qed.

Lemma match_whole_run adv prev r rest :
  word_before prev = false -> is_run r -> word_here rest = false ->
  ci_equal w r = true ->
  match_at true P adv prev (r ++ rest) = Some (final prev r, rest).
Proof.
  intros Hp Hr Hrest Heq. unfold P.
  rewrite match_at_word by apply l_not_nil. fold l.
  unfold ci_equal in Heq. fold l in Heq.
  pose proof (same_length _ _ Heq) as Hlen. rewrite <- Hlen.
  rewrite firstn_app, Nat.sub_diag, firstn_all, firstn_O, app_nil_r.
  rewrite skipn_app, Nat.sub_diag, skipn_all, skipn_O. cbn [app].
  rewrite Heq. unfold at_boundary.
  rewrite Hp, (word_here_run r rest Hr), Hrest.
  destruct Hr as [Hne Hall]. rewrite (final_word prev r Hne Hall).
  reflexivity.
Qed.

Lemma no_match_other_run adv prev r rest :
  is_run r -> word_here rest = false -> ci_equal w r = false ->
  match_at true P adv prev (r ++ rest) = None.
Proof.
  intros Hr Hrest Hneq. unfold P.
  rewrite match_at_word by apply l_not_nil. fold l.
  set (n := length l).
  destruct (same_ignoring_case l (firstn n (r ++ rest))) eqn:Hsame;
    [|now rewrite andb_false_r].
  pose proof (same_length _ _ Hsame) as Hlen. fold n in Hlen.
  pose proof (same_all_word _ _ l_cased Hsame) as Hword.
  assert (Hn : n <> 0).
  { unfold n. pose proof l_not_nil. destruct l; simpl; congruence. }
  assert (Hfw : word_before (final prev (firstn n (r ++ rest))) = true).
  { apply final_word; [|assumption].
    intros E. rewrite E in Hlen. simpl in Hlen. lia. }
  unfold at_boundary at 2. rewrite Hfw.
  destruct (Nat.lt_trichotomy n (length r)) as [Hlt|[Heq|Hgt]].
  - (* the run goes on after the letters *)
    assert (Hh : word_here (skipn n (r ++ rest)) = true).
    { rewrite skipn_app. apply word_here_run. split.
      - intros E. apply (f_equal (@length _)) in E.
        rewrite length_skipn in E. simpl in E. lia.
      - destruct Hr as [_ Hall]. rewrite <- (firstn_skipn n r) in Hall.
        apply Forall_app in Hall. apply Hall. }
    rewrite Hh. simpl. now rewrite andb_false_r.
  - (* the letters are the run *)
    rewrite firstn_app, <- Heq, Nat.sub_diag, firstn_all2 in Hsame by lia.
    rewrite firstn_O, app_nil_r in Hsame.
    unfold ci_equal in Hneq. fold l in Hneq. congruence.
  - (* the letters reach into a gap *)
    rewrite firstn_app, firstn_all2 in Hword by lia.
    apply Forall_app in Hword. destruct Hword as [_ Hword].
    rewrite firstn_app, firstn_all2, length_app, length_firstn in Hlen by lia.
    destruct rest as [|d rest]; [simpl in Hlen; lia|].
    destruct (n - length r) as [|k] eqn:Ek; [lia|].
    simpl in Hword. inversion Hword; subst. simpl in Hrest. congruence.
Qed.

(** Behind a word character, the rest of a run is passed over. *)
Lemma skip_word_tail repl f rest : forall r prev,
  Forall (fun c => is_word c = true) r ->
  word_before prev = true ->
  render repl (scan_loop true (S f) P false prev (r ++ rest)) =
  r ++ render repl (scan_loop true (S f) P false (final prev r) rest).
Proof.
  induction r as [|c r IH]; intros prev Hall Hp; [reflexivity|].
  inversion Hall; subst.
  cbn [app final]. rewrite scan_loop_skip.
  - rewrite render_push. f_equal. now apply IH.
  - apply no_match_behind_word; assumption.
Qed.

(** The substitution replaces the pieces of a cutting that are the word. *)
Lemma scan_cut : forall segs,
  cut_at_words segs ->
  forall f prev,
    length (concat segs) < f ->
    word_before prev = false \/ word_here (concat segs) = false ->
    render removed (scan_loop true f P false prev (concat segs))
    = concat (map (censor w) segs).
Proof.
  induction segs as [|r segs IH]; intros Hcut f prev Hf Hinv.
  - destruct f as [|f]; [simpl in Hf; lia|]. simpl concat.
    rewrite scan_loop_end by apply no_match_at_end. reflexivity.
  - destruct Hcut as [Hr Hcut]. cbn [concat map] in *.
    destruct f as [|f]; [lia|].
    destruct Hr as [[c [-> Hc]]|[Hr Hnext]].
    + (* a gap *)
      cbn [app]. rewrite scan_loop_skip by now apply no_match_at_gap.
      rewrite render_push. unfold censor at 1.
      rewrite (@gap_not_equal c Hc). cbn [app]. f_equal.
      apply IH; [assumption| simpl in Hf; lia |left; exact Hc].
    + (* a word *)
      assert (Hp : word_before prev = false).
      { destruct Hinv as [Hp|Hh]; [assumption|].
        rewrite (word_here_run _ _ Hr) in Hh. discriminate. }
      rewrite length_app in Hf.
      destruct Hr as [Hne Hall].
      unfold censor at 1. destruct (ci_equal w r) eqn:Heq.
      * rewrite (scan_loop_hit _ _ _ _ _ _ _ _
                   (@match_whole_run false prev r (concat segs) Hp
                      (conj Hne Hall) Hnext Heq)).
        cbv zeta. rewrite render_hit. f_equal.
        replace (Nat.eqb _ 0) with false.
        -- apply IH; [assumption| |right; assumption].
           destruct r; [congruence|simpl in Hf; lia].
        -- symmetry. apply Nat.eqb_neq.
           rewrite length_firstn, length_app.
           destruct r; [congruence|cbn [length]; lia].
      * destruct r as [|c r]; [congruence|]. inversion Hall; subst.
        cbn [app].
        rewrite scan_loop_skip
          by apply (@no_match_other_run false prev (c :: r) (concat segs)
                      (conj Hne Hall) Hnext Heq).
        rewrite render_push. f_equal.
        rewrite skip_word_tail by (simpl; assumption).
        f_equal. apply IH; [assumption|simpl in Hf; lia|right; assumption].
Qed.

End OneWord.

End FilterFacts.

(** * Cuttings of a text *)

Module CutFacts.

Import Unicode Sre ListFacts UnicodeFacts FilterFacts.

Lemma concat_runs s : concat (runs s) = s.
Proof.
  induction s as [|c s IH]; [reflexivity|].
  simpl. destruct (is_word c).
  - destruct (runs s) as [|[|d r] segs]; simpl in *; try (now rewrite IH).
    destruct (is_word d); simpl; now rewrite <- IH.
  - simpl. now rewrite IH.
Qed.

Lemma runs_cut s : cut_at_words (runs s).
Proof.
  induction s as [|c s IH]; [exact I|].
  simpl. destruct (is_word c) eqn:Hc.
  - destruct (runs s) as [|[|d r] segs].
    + split; [right|exact I]. split; [|reflexivity].
      split; [congruence|]. now constructor.
    + destruct IH as [[[x [E _]]|[[E _] _]] _]; congruence.
    + destruct (is_word d) eqn:Hd.
      * destruct IH as [[[x [E Hx]]|[[_ Hall] Hnext]] Hcut].
        -- inversion E; subst. congruence.
        -- split; [right|assumption]. split; [|assumption].
           split; [congruence|]. now constructor.
      * split; [right|assumption]. split; [|simpl; assumption].
        split; [congruence|]. now constructor.
  - split; [left; now exists c|assumption].
Qed.

Lemma runs_app_word r rest :
  is_run r -> word_here rest = false -> runs (r ++ rest) = r :: runs rest.
Proof.
  intros [Hne Hall] Hrest. induction r as [|c r IH]; [congruence|].
  inversion Hall as [|? ? Hc Hall']; subst.
  cbn [app runs]. rewrite Hc.
  destruct r as [|d r].
  - cbn [app]. destruct rest as [|x rest]; [reflexivity|].
    simpl in Hrest. cbn [runs]. rewrite Hrest. cbv iota. rewrite Hrest.
    reflexivity.
  - rewrite IH by (congruence || assumption).
    inversion Hall'; subst. now replace (is_word d) with true.
Qed.

(** A text has one cutting at its words. *)
Lemma cut_runs : forall segs, cut_at_words segs -> runs (concat segs) = segs.
Proof.
  induction segs as [|r segs IH]; [reflexivity|].
  intros [[[c [-> Hc]]|[Hr Hnext]] Hcut]; cbn [concat].
  - cbn [app runs]. rewrite Hc. now rewrite IH.
  - rewrite runs_app_word by assumption. now rewrite IH.
Qed.

Lemma cut_pieces_not_nil segs :
  cut_at_words segs -> Forall (fun r => r <> []) segs.
Proof.
  induction segs as [|r segs IH]; intros Hcut; constructor.
  - destruct Hcut as [[[c [-> _]]|[[Hne _] _]] _]; congruence.
  - apply IH, Hcut.
Qed.

Lemma word_here_app a b : a <> [] -> word_here (a ++ b) = word_here a.
Proof. destruct a; [congruence|reflexivity]. Qed.

Lemma concat_not_nil (segs : list str) :
  segs <> [] -> Forall (fun r => r <> []) segs -> concat segs <> [].
Proof.
  destruct segs as [|r segs]; [congruence|].
  intros _ Hall. inversion Hall; subst. simpl.
  destruct r; [congruence|discriminate].
Qed.

Lemma cut_app a b :
  cut_at_words a -> cut_at_words b ->
  word_before (final None (concat a)) = false \/ word_here (concat b) = false ->
  cut_at_words (a ++ b).
Proof.
  intros Ha Hb. generalize (@None char) as prev.
  induction a as [|r a IH]; intros prev Hjoin; [assumption|].
  destruct Ha as [Hr Ha]. cbn [app cut_at_words]. split.
  - destruct Hr as [Hg|[Hr Hnext]]; [now left|right].
    split; [assumption|].
    destruct a as [|r' a].
    + cbn [app]. destruct Hjoin as [Hf|Hh]; [|assumption].
      cbn [concat] in Hf. rewrite app_nil_r in Hf.
      destruct Hr as [Hne Hall]. rewrite (final_word prev r Hne Hall) in Hf.
      discriminate.
    + rewrite concat_app, word_here_app; [assumption|].
      apply concat_not_nil; [congruence|].
      now apply cut_pieces_not_nil.
  - apply (IH Ha (final prev r)).
    destruct Hjoin as [Hf|Hh]; [left|now right].
    cbn [concat] in Hf. now rewrite final_app in Hf.
Qed.

(** ** Censoring a cutting *)

Lemma concat_censor_cut w r : concat (censor_cut w r) = censor w r.
Proof.
  unfold censor_cut, censor. destruct (ci_equal w r); [reflexivity|].
  simpl. apply app_nil_r.
Qed.

Lemma concat_flat_map_censor w segs :
  concat (flat_map (censor_cut w) segs) = concat (map (censor w) segs).
Proof.
  induction segs as [|r segs IH]; [reflexivity|].
  cbn [flat_map map concat]. now rewrite concat_app, concat_censor_cut, IH.
Qed.

Lemma word_here_censored w segs :
  cut_at_words segs ->
  word_here (concat segs) = false ->
  word_here (concat (flat_map (censor_cut w) segs)) = false.
Proof.
  destruct segs as [|r segs]; [reflexivity|].
  intros Hcut Hh. cbn [flat_map]. rewrite concat_app.
  unfold censor_cut. destruct (ci_equal w r).
  - vm_compute. reflexivity.
  - apply cut_pieces_not_nil in Hcut. inversion Hcut; subst.
    cbn [concat app] in *. rewrite app_nil_r.
    rewrite word_here_app in * by assumption. exact Hh.
Qed.

Lemma censor_keeps_cut w segs :
  cut_at_words segs -> cut_at_words (flat_map (censor_cut w) segs).
Proof.
  induction segs as [|r segs IH]; [trivial|].
  intros [Hr Hcut]. specialize (IH Hcut). cbn [flat_map].
  unfold censor_cut at 1. destruct (ci_equal w r).
  - cbn [app cut_at_words]. repeat split; try assumption.
    + left. exists 91%N. split; [reflexivity|apply open_bracket_not_word].
    + right. split; [|reflexivity].
      split; [discriminate|]. repeat constructor.
    + left. exists 93%N. split; [reflexivity|apply close_bracket_not_word].
  - cbn [app cut_at_words]. split; [|assumption].
    destruct Hr as [Hg|[Hr Hnext]]; [now left|right].
    split; [assumption|]. now apply word_here_censored.
Qed.

(** The filter on a text is the censoring of its cutting. *)
Lemma fold_sub_cut ws :
  Forall plain_word ws ->
  forall segs,
    cut_at_words segs ->
    fold_left (fun text w => Sre.sub (word_pattern w) removed text true)
              ws (concat segs)
    = concat (censor_all ws segs)
    /\ cut_at_words (censor_all ws segs).
Proof.
  unfold censor_all. induction 1 as [|w ws' Hw Hws IH]; intros segs Hcut.
  - split; [reflexivity|assumption].
  - cbn [fold_left].
    rewrite SreFacts.sub_render. unfold Sre.scan.
    rewrite (scan_cut _ Hw) by (trivial; (lia || now left)).
    rewrite <- concat_flat_map_censor.
    apply IH. now apply censor_keeps_cut.
Qed.

Lemma banned_words_plain : Forall plain_word banned_words.
Proof.
  repeat constructor; try discriminate.
Qed.

Lemma clean_output_cut text :
  clean_output text = concat (censor_all banned_words (runs text))
  /\ cut_at_words (censor_all banned_words (runs text)).
Proof.
  unfold clean_output. rewrite <- (concat_runs text) at 1.
  apply fold_sub_cut; [apply banned_words_plain|apply runs_cut].
Qed.

End CutFacts.

(** * The text filter *)

Module CleanFacts.

Import Unicode Sre ListFacts UnicodeFacts FilterFacts CutFacts.

Lemma plain_word_run w m :
  plain_word w -> ci_equal w m = true -> is_run m.
Proof.
  intros [Hne [Hcased _]] Heq. split.
  - intros ->. apply same_length in Heq.
    destruct (list_ascii_of_string w); [congruence|discriminate].
  - now apply (same_all_word _ _ Hcased).
Qed.

(** A whole-word occurrence is a piece of the cutting. *)
Lemma occurrence_in_cut w segs :
  plain_word w -> cut_at_words segs ->
  whole_word_occurrence w (concat segs) ->
  exists m, In m segs /\ ci_equal w m = true.
Proof.
  intros Hw Hcut (pre & m & post & E & Heq & Hpre & Hpost).
  exists m. split; [|assumption].
  pose proof (plain_word_run _ _ Hw Heq) as Hrun.
  assert (Hx : cut_at_words (runs pre ++ m :: runs post)).
  { apply cut_app.
    - apply runs_cut.
    - split; [|apply runs_cut]. right. split; [assumption|].
      now rewrite concat_runs.
    - left. now rewrite concat_runs. }
  apply cut_runs in Hx.
  rewrite concat_app in Hx. cbn [concat] in Hx.
  rewrite !concat_runs, <- E, (cut_runs _ Hcut) in Hx.
  rewrite Hx. apply in_elt.
Qed.

Lemma bracket_pieces_free w m :
  plain_word w -> In m [py "["; py "removed"; py "]"] -> ci_equal w m = false.
Proof.
  intros Hw [<-|[<-|[<-|[]]]].
  - apply (gap_not_equal _ Hw). apply open_bracket_not_word.
  - apply Hw.
  - apply (gap_not_equal _ Hw). apply close_bracket_not_word.
Qed.

Lemma censor_frees w segs :
  plain_word w -> free_of w (flat_map (censor_cut w) segs).
Proof.
  intros Hw m Hin. apply in_flat_map in Hin. destruct Hin as [r [_ Hin]].
  unfold censor_cut in Hin. destruct (ci_equal w r) eqn:E.
  - now apply bracket_pieces_free.
  - destruct Hin as [<-|[]]. assumption.
Qed.

Lemma censor_keeps_free w w' segs :
  plain_word w -> free_of w segs -> free_of w (flat_map (censor_cut w') segs).
Proof.
  intros Hw Hfree m Hin. apply in_flat_map in Hin. destruct Hin as [r [Hr Hin]].
  unfold censor_cut in Hin. destruct (ci_equal w' r).
  - now apply bracket_pieces_free.
  - destruct Hin as [<-|[]]. now apply Hfree.
Qed.

Lemma censor_all_keeps_free w ws : forall segs,
  plain_word w -> free_of w segs -> free_of w (censor_all ws segs).
Proof.
  unfold censor_all. induction ws as [|w' ws IH]; intros segs Hw Hfree.
  - assumption.
  - cbn [fold_left]. apply IH; [assumption|]. now apply censor_keeps_free.
Qed.

Lemma censor_all_frees w ws : forall segs,
  plain_word w -> In w ws -> free_of w (censor_all ws segs).
Proof.
  induction ws as [|w' ws IH]; intros segs Hw Hin; [destruct Hin|].
  destruct Hin as [->|Hin].
  - apply (censor_all_keeps_free w ws (flat_map (censor_cut w) segs) Hw).
    now apply censor_frees.
  - now apply (IH (flat_map (censor_cut w') segs)).
Qed.

Lemma censor_free_same w segs :
  free_of w segs -> flat_map (censor_cut w) segs = segs.
Proof.
  induction segs as [|r segs IH]; intros Hfree; [reflexivity|].
  cbn [flat_map]. unfold censor_cut at 1.
  rewrite (Hfree r) by now left.
  cbn [app]. f_equal. apply IH. intros m Hm. apply Hfree. now right.
Qed.

Lemma censor_all_free_same ws : forall segs,
  (forall w, In w ws -> free_of w segs) -> censor_all ws segs = segs.
Proof.
  unfold censor_all. induction ws as [|w ws IH]; intros segs Hfree;
    [reflexivity|].
  cbn [fold_left]. rewrite censor_free_same by (apply Hfree; now left).
  apply IH. intros w' Hw'. apply Hfree. now right.
Qed.

Lemma plain_of_banned w : In w banned_words -> plain_word w.
Proof.
  intros Hin. pose proof banned_words_plain as H.
  rewrite Forall_forall in H. now apply H.
Qed.

Lemma clean_output_free text w :
  In w banned_words -> free_of w (censor_all banned_words (runs text)).
Proof.
  intros Hin. apply censor_all_frees; [now apply plain_of_banned|assumption].
Qed.

Lemma no_banned_word_left text w :
  In w banned_words -> ~ whole_word_occurrence w (clean_output text).
Proof.
  intros Hin Hocc.
  destruct (clean_output_cut text) as [E Hcut]. rewrite E in Hocc.
  apply occurrence_in_cut in Hocc;
    [|now apply plain_of_banned|assumption].
  destruct Hocc as [m [Hm Heq]].
  rewrite (clean_output_free text w Hin m Hm) in Heq. discriminate.
Qed.

(** The filter works on the two sides of a joint that is not inside a
    word. *)
Lemma censor_all_app ws : forall a b,
  censor_all ws (a ++ b) = censor_all ws a ++ censor_all ws b.
Proof.
  unfold censor_all. induction ws as [|w ws IH]; intros a b; [reflexivity|].
  cbn [fold_left]. now rewrite flat_map_app, IH.
Qed.

Lemma clean_output_app a b :
  word_before (final None a) = false \/ word_here b = false ->
  clean_output (a ++ b) = clean_output a ++ clean_output b.
Proof.
  intros Hjoin.
  destruct (clean_output_cut a) as [Ea _].
  destruct (clean_output_cut b) as [Eb _].
  destruct (clean_output_cut (a ++ b)) as [Eab _].
  rewrite Ea, Eb, Eab, <- concat_app, <- censor_all_app. do 2 f_equal.
  rewrite <- (concat_runs a), <- (concat_runs b) at 1.
  rewrite <- concat_app. apply cut_runs.
  apply cut_app; try apply runs_cut. now rewrite !concat_runs.
Qed.

(** A word that is none of the banned ones stays. *)
Lemma clean_output_other_word r :
  is_run r -> (forall w, In w banned_words -> ci_equal w r = false) ->
  clean_output r = r.
Proof.
  intros Hr Hfree. destruct (clean_output_cut r) as [E _]. rewrite E.
  assert (Hruns : runs r = [r]).
  { rewrite <- (app_nil_r r) at 1. now rewrite runs_app_word. }
  rewrite Hruns, censor_all_free_same.
  - simpl. apply app_nil_r.
  - intros w Hw m [<-|[]]. now apply Hfree.
Qed.

End CleanFacts.

(** * Properties of the text filter (specification, section 4.1) *)

Section TextFilter.

Import Unicode Sre ListFacts UnicodeFacts FilterFacts CutFacts CleanFacts.

Lemma word_tail_split s : before_word_tail s ++ word_tail s = s.
Proof.
  unfold before_word_tail, word_tail.
  now rewrite <- rev_app_distr, take_drop_while, rev_involutive.
Qed.

Lemma word_head_split s : word_head s ++ after_word_head s = s.
Proof. apply take_drop_while. Qed.

Lemma word_tail_all s : Forall (fun c => is_word c = true) (word_tail s).
Proof. apply Forall_rev, take_while_all. Qed.

Lemma before_word_tail_end s :
  word_before (final None (before_word_tail s)) = false.
Proof.
  unfold before_word_tail. rewrite final_rev.
  pose proof (drop_while_head is_word (rev s)) as H.
  destruct (drop_while is_word (rev s)); [reflexivity|exact H].
Qed.

Lemma after_word_head_start s : word_here (after_word_head s) = false.
Proof.
  unfold after_word_head.
  pose proof (drop_while_head is_word s) as H.
  destruct (drop_while is_word s); [reflexivity|exact H].
Qed.

Lemma word_tail_not_nil s :
  word_before (final None s) = true -> word_tail s <> [].
Proof.
  intros H E. rewrite <- (word_tail_split s), E, app_nil_r in H.
  rewrite before_word_tail_end in H. discriminate.
Qed.

Lemma word_head_not_nil s : word_here s = true -> word_head s <> [].
Proof.
  intros H E. rewrite <- (word_head_split s), E in H. simpl in H.
  rewrite after_word_head_start in H. discriminate.
Qed.

Lemma banned_word_length w :
  In w banned_words -> length (list_ascii_of_string w) = 4.
Proof.
  intros [<-|[<-|[<-|[<-|[]]]]]; reflexivity.
Qed.

(** A word that has a banned word inside it, and more, is kept. *)
Lemma longer_word_kept w a m b :
  In w banned_words -> ci_equal w m = true ->
  Forall (fun c => is_word c = true) a ->
  Forall (fun c => is_word c = true) b ->
  a ++ b <> [] ->
  clean_output (a ++ m ++ b) = a ++ m ++ b.
Proof.
  intros Hw Heq Ha Hb Hne.
  pose proof (plain_word_run _ _ (plain_of_banned _ Hw) Heq) as [Hm Hmall].
  apply clean_output_other_word.
  - split.
    + intros E. apply app_eq_nil in E. destruct E as [_ E].
      apply app_eq_nil in E. destruct E as [E _]. congruence.
    + apply Forall_app. split; [assumption|].
      apply Forall_app. now split.
  - intros w' Hw'. destruct (ci_equal w' (a ++ m ++ b)) eqn:E; [|reflexivity].
    apply same_length in E, Heq.
    rewrite (banned_word_length _ Hw') in E.
    rewrite (banned_word_length _ Hw) in Heq.
    rewrite !length_app in E.
    assert (length (a ++ b) <> 0).
    { destruct (a ++ b); [congruence|discriminate]. }
    rewrite length_app in *. lia.
Qed.

(** C2. The output of [clean_output] has no banned word left as a whole
    word, whatever its case; and where the input has a banned word inside
    a longer word, that is, with a word character right before or right
    after it, the longer word comes out as it went in, the text on its two
    sides being filtered on its own. *)
Theorem text_filter_whole_words_only (w : string) :
  In w banned_words ->
  (forall text, ~ whole_word_occurrence w (clean_output text)) /\
  (forall pre m post,
      ci_equal w m = true ->
      word_before (final None pre) = true \/ word_here post = true ->
      clean_output (pre ++ m ++ post) =
      clean_output (before_word_tail pre)
        ++ (word_tail pre ++ m ++ word_head post)
        ++ clean_output (after_word_head post)).
Proof.
  intros Hw. split.
  - intros text. now apply no_banned_word_left.
  - intros pre m post Heq Hemb.
    set (a := word_tail pre). set (b := word_head post).
    assert (Hne : a ++ b <> []).
    { intros E. apply app_eq_nil in E. destruct E as [Ea Eb].
      destruct Hemb as [H|H].
      - now apply word_tail_not_nil in H.
      - now apply word_head_not_nil in H. }
    pose proof (longer_word_kept w a m b Hw Heq (word_tail_all pre)
                  (take_while_all is_word post) Hne) as Hkept.
    rewrite <- (word_tail_split pre) at 1.
    rewrite <- (word_head_split post) at 1.
    fold a b.
    replace ((before_word_tail pre ++ a) ++ m ++ b ++ after_word_head post)
      with (before_word_tail pre ++ (a ++ m ++ b) ++ after_word_head post)
      by (now rewrite <- !app_assoc).
    rewrite clean_output_app by (left; apply before_word_tail_end).
    rewrite clean_output_app by (right; apply after_word_head_start).
    now rewrite Hkept.
Qed.

Lemma text_filter_whole_words_only_witness :
  ~ whole_word_occurrence "hate" (clean_output (py "We HATE spam"))
  /\ clean_output (py "fuck the " ++ py "hate" ++ py "rs")
     = py "[removed] the " ++ (py "hate" ++ py "rs") ++ [].
Proof.
  destruct (text_filter_whole_words_only "hate") as [H1 H2].
  - simpl. auto.
  - split.
    + apply H1.
    + rewrite (H2 (py "fuck the ") (py "hate") (py "rs"));
        [vm_compute; reflexivity | reflexivity | right; reflexivity].
Defined.

(** C8. Filtering a filtered text changes nothing. *)
Theorem clean_output_idempotent (text : str) :
  clean_output (clean_output text) = clean_output text.
Proof.
  destruct (clean_output_cut text) as [E Hcut].
  destruct (clean_output_cut (clean_output text)) as [E' _].
  rewrite E', E at 1. rewrite cut_runs by assumption.
  rewrite censor_all_free_same; [now rewrite E|].
  intros w Hw. now apply clean_output_free.
Qed.

Example clean_output_twice :
  clean_output (clean_output (py "Shit happens; [removed] happens too"))
  = py "[removed] happens; [removed] happens too".
Proof. vm_compute. reflexivity. Qed.

End TextFilter.

(** * The numbering pattern *)

Module NumberingFacts.

Import Unicode Sre Scan ListFacts SreFacts UnicodeFacts.

(** Greedy repetition when what follows cannot start with the repeated
    item: nothing is given back. *)
Lemma repeat_one_all a k :
  (forall prev c s, atom_matches false a c = true -> k prev (c :: s) = None) ->
  forall s prev,
    repeat_one false a 0 prev s k =
    k (final prev (take_while (atom_matches false a) s))
      (drop_while (atom_matches false a) s).
Proof.
  intros Hk. induction s as [|x s IH]; intros prev; [reflexivity|].
  cbn [repeat_one take_while drop_while].
  destruct (atom_matches false a x) eqn:E; [|reflexivity].
  cbn [pred Nat.eqb final]. rewrite IH.
  destruct (k _ (drop_while _ s)); [reflexivity|].
  now apply Hk.
Qed.

Lemma repeat_one_plus a k x s prev :
  repeat_one false a 1 prev (x :: s) k =
  if atom_matches false a x then repeat_one false a 0 (Some x) s k else None.
Proof.
  cbn [repeat_one pred Nat.eqb].
  destruct (atom_matches false a x); [|reflexivity].
  now destruct (repeat_one false a 0 (Some x) s k).
Qed.

Lemma closing_matches c :
  atom_matches false (IN ["."%char; ")"%char]) c = ((c =? 46) || (c =? 41))%N.
Proof. cbn. now rewrite orb_false_r. Qed.

Lemma after_mark_length s p rest :
  after_mark s = Some (p, rest) -> length rest < length s.
Proof.
  unfold after_mark. destruct s as [|c s1]; [discriminate|].
  destruct (c =? 10)%N; [|discriminate].
  pose proof (drop_while_length isspace s1) as H1.
  destruct (drop_while isspace s1) as [|d s2]; [discriminate|].
  destruct (isdecimal d); [|discriminate].
  pose proof (drop_while_length isdecimal s2) as H2.
  destruct (drop_while isdecimal s2) as [|t s3]; [discriminate|].
  destruct ((t =? 46) || (t =? 41))%N; [|discriminate].
  intros E. inversion E; subst. simpl in *. lia.
Qed.

Lemma exec_one ic a pat prev x s k :
  exec ic (ONE a :: pat) prev (x :: s) k =
  if atom_matches ic a x then exec ic pat (Some x) s k else None.
Proof. reflexivity. Qed.

Lemma exec_repeat ic lo a pat prev s k :
  exec ic (MAX_REPEAT lo a :: pat) prev s k =
  repeat_one ic a lo prev s (fun prev' s' => exec ic pat prev' s' k).
Proof. reflexivity. Qed.

(** The matcher on the numbering pattern is [after_mark]. *)
Lemma match_at_numbering adv prev s :
  match_at false numbering adv prev s = after_mark s.
Proof.
  unfold match_at, numbering, after_mark.
  destruct s as [|c s1]; [reflexivity|].
  rewrite exec_one.
  change (atom_matches false (LITERAL "010") c) with (c =? 10)%N.
  destruct (c =? 10)%N; [|reflexivity].
  rewrite exec_repeat, repeat_one_all.
  2:{ intros p x s Hx. rewrite exec_repeat, repeat_one_plus.
      cbn [atom_matches] in *. now rewrite (space_not_decimal x Hx). }
  change (atom_matches false CATEGORY_SPACE) with isspace.
  destruct (drop_while isspace s1) as [|d s2] eqn:E1; [reflexivity|].
  rewrite exec_repeat, repeat_one_plus.
  change (atom_matches false CATEGORY_DIGIT) with isdecimal.
  destruct (isdecimal d); [|reflexivity].
  rewrite repeat_one_all.
  2:{ intros p x s Hx. rewrite exec_one, closing_matches.
      now rewrite (decimal_not_closing x Hx). }
  change (atom_matches false CATEGORY_DIGIT) with isdecimal.
  destruct (drop_while isdecimal s2) as [|t s3] eqn:E2; [reflexivity|].
  rewrite exec_one, closing_matches.
  destruct ((t =? 46) || (t =? 41))%N; [|reflexivity].
  cbn [exec]. unfold success.
  replace (Nat.eqb (length s3) (length (c :: s1))) with false.
  - now rewrite andb_false_r.
  - symmetry. apply Nat.eqb_neq.
    pose proof (drop_while_length isspace s1).
    pose proof (drop_while_length isdecimal s2).
    rewrite E1 in *. rewrite E2 in *. simpl in *. lia.
Qed.

(** ** Marks *)

Lemma mark_complete m rest :
  Mark m -> after_mark (m ++ rest) = Some (final None m, rest).
Proof.
  intros (ws & ds & t & -> & Hws & Hds & Hdec & Ht).
  destruct ds as [|d ds]; [congruence|]. inversion Hdec; subst.
  unfold after_mark. cbn [app]. change (NL =? 10)%N with true. cbv iota.
  rewrite <- !app_assoc. rewrite drop_while_all by assumption.
  cbn [app]. rewrite <- ?app_assoc.
  rewrite drop_while_stop by now apply decimal_not_space.
  replace (isdecimal d) with true by (symmetry; assumption).
  rewrite drop_while_all by assumption.
  assert (Hc : ((t =? 46) || (t =? 41))%N = true).
  { destruct Ht as [->| ->]; reflexivity. }
  cbn [app]. rewrite drop_while_stop.
  - rewrite Hc. do 2 f_equal.
    cbn [final]. rewrite final_app.
    change (d :: ds ++ [t]) with ((d :: ds) ++ [t]). now rewrite final_app.
  - destruct (isdecimal t) eqn:E; [|reflexivity].
    apply decimal_not_closing in E. congruence.
Qed.

Lemma mark_sound s p rest :
  after_mark s = Some (p, rest) -> exists m, Mark m /\ s = m ++ rest.
Proof.
  unfold after_mark. destruct s as [|c s1]; [discriminate|].
  destruct (N.eqb_spec c 10); [subst c|discriminate].
  pose proof (take_drop_while isspace s1) as E1.
  pose proof (take_while_all isspace s1) as H1.
  destruct (drop_while isspace s1) as [|d s2]; [discriminate|].
  destruct (isdecimal d) eqn:Hd; [|discriminate].
  pose proof (take_drop_while isdecimal s2) as E2.
  pose proof (take_while_all isdecimal s2) as H2.
  destruct (drop_while isdecimal s2) as [|t s3]; [discriminate|].
  destruct ((t =? 46) || (t =? 41))%N eqn:Ht; [|discriminate].
  intros E. inversion E; subst p rest.
  exists (NL :: take_while isspace s1 ++ (d :: take_while isdecimal s2) ++ [t]).
  split.
  - exists (take_while isspace s1), (d :: take_while isdecimal s2), t.
    repeat split; try assumption; try discriminate.
    + now constructor.
    + apply orb_true_iff in Ht. destruct Ht as [Ht|Ht];
        apply N.eqb_eq in Ht; auto.
  - rewrite <- E1 at 1. rewrite <- E2 at 1.
    repeat (cbn [app]; rewrite <- ?app_assoc). reflexivity.
Qed.

Lemma mark_not_nil m : Mark m -> m <> [].
Proof. intros (ws & ds & t & -> & _). discriminate. Qed.

Lemma mark_starts_with_newline m : Mark m -> exists m', m = NL :: m'.
Proof. intros (ws & ds & t & -> & _). eauto. Qed.

(** ** Searching for a mark *)

Lemma search_numbering adv prev s :
  search false numbering adv prev s =
  match after_mark s with
  | Some (p, rest) => Some (Hit [] (firstn (length s - length rest) s) p rest)
  | None =>
      match s with
      | [] => None
      | x :: s' => option_map (skip_one x) (search false numbering false (Some x) s')
      end
  end.
Proof. now rewrite search_eq, match_at_numbering. Qed.

(** The pattern looks neither behind the position nor at [must_advance]. *)
Lemma search_numbering_ctx : forall s adv prev adv' prev',
  search false numbering adv prev s = search false numbering adv' prev' s.
Proof.
  induction s as [|x s IH]; intros; rewrite !(search_numbering _ _ _);
    destruct (after_mark _) as [[p rest]|]; try reflexivity.
Qed.

Lemma firstn_matched (m rest : str) :
  firstn (length (m ++ rest) - length rest) (m ++ rest) = m.
Proof.
  rewrite length_app, Nat.add_sub, firstn_app, Nat.sub_diag, firstn_all.
  cbn [firstn]. apply app_nil_r.
Qed.

Lemma search_numbering_hit : forall s adv prev h,
  search false numbering adv prev s = Some h ->
  s = skipped h ++ matched h ++ remaining h /\ Mark (matched h).
Proof.
  induction s as [|x s IH]; intros adv prev h; rewrite search_numbering.
  - discriminate.
  - destruct (after_mark (x :: s)) as [[p rest]|] eqn:E.
    + destruct (mark_sound _ _ _ E) as [m [Hm Em]].
      rewrite Em, firstn_matched. intros H. inversion H; subst h.
      cbn [skipped matched remaining app]. now split.
    + destruct (search false numbering false (Some x) s) as [h'|] eqn:E';
        [|discriminate].
      intros H. inversion H; subst h.
      apply IH in E'. destruct E' as [E1 E2].
      cbn [skip_one skipped matched remaining app]. split; [|assumption].
      now f_equal.
Qed.

(** The first mark of a text is what the search finds. *)
Lemma search_numbering_first tail p rest : forall pre adv prev,
  (forall p1 p2, pre = p1 ++ p2 -> p2 <> [] -> after_mark (p2 ++ tail) = None) ->
  after_mark tail = Some (p, rest) ->
  search false numbering adv prev (pre ++ tail) =
  Some (Hit pre (firstn (length tail - length rest) tail) p rest).
Proof.
  induction pre as [|x pre IH]; intros adv prev Hfree Htail.
  - cbn [app]. now rewrite search_numbering, Htail.
  - cbn [app]. rewrite search_numbering.
    assert (H0 : after_mark ((x :: pre) ++ tail) = None)
      by (apply (Hfree [] (x :: pre) eq_refl); discriminate).
    cbn [app] in H0. rewrite H0.
    rewrite IH; [reflexivity| |assumption].
    intros p1 p2 E Hne. apply (Hfree (x :: p1) p2); [now rewrite E|assumption].
Qed.

Lemma search_numbering_none : forall s adv prev,
  (forall p1 p2, s = p1 ++ p2 -> after_mark p2 = None) ->
  search false numbering adv prev s = None.
Proof.
  induction s as [|x s IH]; intros adv prev Hfree; rewrite search_numbering.
  - now rewrite (Hfree [] [] eq_refl).
  - rewrite (Hfree [] (x :: s) eq_refl). rewrite IH; [reflexivity|].
    intros p1 p2 E. apply (Hfree (x :: p1) p2). now rewrite E.
Qed.

(** ** Scanning for marks *)

Lemma scan_numbering_fuel : forall n s f f' adv prev adv' prev',
  length s <= n -> length s < f -> length s < f' ->
  scan_loop false f numbering adv prev s
  = scan_loop false f' numbering adv' prev' s.
Proof.
  induction n as [|n IH]; intros s f f' adv prev adv' prev' Hn Hf Hf';
    (destruct f as [|f]; [lia|]); (destruct f' as [|f']; [lia|]);
    rewrite !scan_loop_eq;
    rewrite (search_numbering_ctx s adv prev adv' prev');
    destruct (search false numbering adv' prev' s) as [h|] eqn:E;
    try reflexivity;
    apply search_numbering_hit in E; destruct E as [E Hm];
    apply mark_not_nil in Hm;
    apply (f_equal (@length _)) in E; rewrite !length_app in E;
    (assert (length (matched h) <> 0)
      by (destruct (matched h); [congruence|discriminate])).
  - lia.
  - rewrite (IH (remaining h) f f'
                (Nat.eqb (length (matched h)) 0) (last_seen h)
                (Nat.eqb (length (matched h)) 0) (last_seen h))
      by lia.
    reflexivity.
Qed.

Lemma scan_numbering_from f adv prev s :
  length s < f ->
  scan_loop false f numbering adv prev s = scan false numbering s.
Proof.
  intros Hf. unfold scan.
  apply (scan_numbering_fuel (length s)); lia.
Qed.

(** A text without a mark is one fragment. *)
Lemma split_no_mark s :
  (forall p1 p2, s = p1 ++ p2 -> after_mark p2 = None) ->
  split numbering s = [s].
Proof.
  intros Hfree. rewrite split_pieces. unfold scan.
  cbn [Nat.mul Nat.add]. rewrite Nat.add_comm. cbn [Nat.add].
  rewrite scan_loop_eq, search_numbering_none by assumption.
  reflexivity.
Qed.

(** The text before the first mark is the first fragment; the rest is
    split in the same way. *)
Lemma split_at_first_mark pre m rest :
  (forall p1 p2, pre = p1 ++ p2 -> p2 <> [] ->
                 after_mark (p2 ++ m ++ rest) = None) ->
  Mark m ->
  split numbering (pre ++ m ++ rest) = pre :: split numbering rest.
Proof.
  intros Hfree Hm. rewrite !split_pieces. unfold scan at 1.
  remember (2 * length (pre ++ m ++ rest) + 2) as F eqn:EF.
  destruct F as [|F]; [lia|].
  rewrite scan_loop_eq.
  rewrite (search_numbering_first (m ++ rest) (final None m) rest pre)
    by (assumption || now apply mark_complete).
  cbn [skipped matched remaining last_seen].
  rewrite scan_numbering_from by (rewrite !length_app in EF; lia).
  destruct (scan false numbering rest) as [pieces tail]. reflexivity.
Qed.

End NumberingFacts.

(** * Properties of the post splitter (specification, section 4.2) *)

Section PostSplitter.

Import Unicode Sre Scan ListFacts SreFacts UnicodeFacts NumberingFacts.

(** What the scan takes out of the text are marks, and nothing else. *)
Lemma scan_numbering_sound : forall f s adv prev,
  let x := scan_loop false f numbering adv prev s in
  Forall Mark (map snd (fst x))
  /\ s = weave (pieces_of x) (map snd (fst x)).
Proof.
  induction f as [|f IH]; intros s adv prev.
  - cbn. split; [constructor|reflexivity].
  - cbv zeta. rewrite scan_loop_eq.
    destruct (search false numbering adv prev s) as [h|] eqn:E.
    + apply search_numbering_hit in E. destruct E as [E Hm].
      specialize (IH (remaining h) (Nat.eqb (length (matched h)) 0)
                     (last_seen h)).
      cbv zeta in IH.
      destruct (scan_loop false f numbering _ (last_seen h) (remaining h))
        as [pieces rest].
      destruct IH as [IH1 IH2]. cbn [fst snd map] in *. split.
      * now constructor.
      * unfold pieces_of in *. cbn [fst snd map app weave] in *.
        now rewrite <- IH2.
    + cbn. split; [constructor|reflexivity].
Qed.

Lemma split_sound raw :
  exists marks,
    length (split numbering raw) = S (length marks)
    /\ Forall Mark marks
    /\ raw = weave (split numbering raw) marks.
Proof.
  rewrite split_pieces.
  pose proof (scan_numbering_sound (2 * length raw + 2) raw false None) as H.
  cbv zeta in H. fold (scan false numbering raw) in H.
  destruct H as [H1 H2].
  exists (map snd (fst (scan false numbering raw))).
  repeat split; try assumption.
  unfold pieces_of. rewrite length_app, !length_map. simpl. lia.
Qed.

(** Characters other than a newline at the head of the text stay at the
    head of the first fragment. *)
Lemma scan_keeps_prefix f s : forall pre adv prev,
  ~ In NL pre ->
  exists x tl,
    pieces_of (scan_loop false (S f) numbering adv prev (pre ++ s))
    = (pre ++ x) :: tl.
Proof.
  induction pre as [|c pre IH]; intros adv prev Hnl.
  - cbn [app]. unfold pieces_of.
    destruct (scan_loop false (S f) numbering adv prev s)
      as [[|[gap m] pieces] rest]; cbn; eauto.
  - cbn [app]. rewrite scan_loop_skip.
    + rewrite pieces_of_push.
      destruct (IH false (Some c)) as (x & tl & E).
      * intros H. apply Hnl. now right.
      * rewrite E. cbn. eauto.
    + rewrite match_at_numbering. unfold after_mark.
      destruct (N.eqb_spec c 10) as [->|_]; [|reflexivity].
      exfalso. apply Hnl. now left.
Qed.

Lemma split_keeps_prefix pre s :
  ~ In NL pre -> exists x tl, split numbering (pre ++ s) = (pre ++ x) :: tl.
Proof.
  intros Hnl. rewrite split_pieces. unfold scan.
  replace (2 * length (pre ++ s) + 2) with (S (2 * length (pre ++ s) + 1))
    by lia.
  now apply scan_keeps_prefix.
Qed.

Lemma no_mark_within_after pre rest :
  no_mark_within pre rest ->
  forall p1 p2, pre = p1 ++ p2 -> p2 <> [] -> after_mark (p2 ++ rest) = None.
Proof.
  intros Hfree p1 p2 E Hne.
  destruct (after_mark (p2 ++ rest)) as [[p tail]|] eqn:Ea; [|reflexivity].
  apply mark_sound in Ea. destruct Ea as [m [Hm Em]].
  exfalso. exact (Hfree p1 p2 m tail E Hne Hm Em).
Qed.

Lemma split_at_mark pre m rest :
  Mark m -> no_mark_within pre (m ++ rest) ->
  split numbering (pre ++ m ++ rest) = pre :: split numbering rest.
Proof.
  intros Hm Hfree. apply split_at_first_mark; [|assumption].
  now apply no_mark_within_after.
Qed.

Lemma split_unmarked seg : no_mark_within seg [] -> split numbering seg = [seg].
Proof.
  intros Hfree. apply split_no_mark. intros p1 p2 E.
  destruct p2 as [|c p2]; [reflexivity|].
  rewrite <- (app_nil_r (c :: p2)).
  apply (no_mark_within_after seg [] Hfree p1); [assumption|discriminate].
Qed.

(** A numbered list is split into its segments. *)
Lemma split_numbered : forall segs marks,
  numbered segs marks -> split numbering (weave segs marks) = segs.
Proof.
  induction segs as [|seg segs IH]; intros marks H; [destruct H|].
  destruct marks as [|m marks].
  - destruct segs; [|destruct H]. cbn [weave]. now apply split_unmarked.
  - cbn [numbered] in H.
    assert (H' : Mark m /\ no_mark_within seg (m ++ weave segs marks)
                 /\ numbered segs marks) by (destruct segs; exact H).
    destruct H' as (Hm & Hfree & Hrest).
    cbn [weave]. rewrite split_at_mark by assumption.
    f_equal. now apply IH.
Qed.

(** ** Trimming and slicing *)

Lemma slice_to_nonneg {A : Type} (n : Z) (l : list A) :
  (0 <= n)%Z -> slice_to n l = firstn (Z.to_nat n) l.
Proof.
  intros Hn. unfold slice_to.
  destruct (Z.ltb_spec n 0); [lia|reflexivity].
Qed.

Lemma slice_to_firstn {A : Type} (n : Z) (l : list A) :
  exists k, slice_to n l = firstn k l.
Proof. unfold slice_to. destruct (n <? 0)%Z; eauto. Qed.

Lemma split_posts_usable raw n :
  split_posts raw n = slice_to n (map strip (usable raw)).
Proof. reflexivity. Qed.

Lemma usable_long raw p : In p (map strip (usable raw)) -> 30 < length p.
Proof.
  intros H. apply in_map_iff in H. destruct H as [q [<- Hq]].
  unfold usable in Hq. apply filter_In in Hq. destruct Hq as [_ Hq].
  now apply Nat.ltb_lt in Hq.
Qed.

(** C3. When the draft has at least [post_count] fragments between
    numbering marks that are longer than 30 characters once trimmed, the
    splitter returns exactly [post_count] posts: the first such fragments,
    trimmed, in the order of the draft.  Whatever the draft and the count,
    no post of the result has 30 characters or fewer; and a numbered list
    is cut into its segments, so the fragments are the numbered segments. *)
Theorem post_splitter_count_and_threshold (raw : str) (post_count : Z) :
  (0 <= post_count)%Z ->
  Z.to_nat post_count <= length (usable raw) ->
  length (split_posts raw post_count) = Z.to_nat post_count
  /\ split_posts raw post_count
     = map strip (firstn (Z.to_nat post_count) (usable raw))
  /\ (forall text n p, In p (split_posts text n) -> 30 < length p)
  /\ (forall segs marks,
        numbered segs marks ->
        Sre.split numbering (weave segs marks) = segs).
Proof.
  intros Hn Hlen. rewrite split_posts_usable, slice_to_nonneg by assumption.
  repeat split.
  - rewrite length_firstn, length_map. lia.
  - now rewrite firstn_map.
  - intros text n p Hp. rewrite split_posts_usable in Hp.
    destruct (slice_to_firstn n (map strip (usable text))) as [k Ek].
    rewrite Ek in Hp. apply (usable_long text).
    rewrite <- (firstn_skipn k (map strip (usable text))).
    apply in_or_app. now left.
  - apply split_numbered.
Qed.

Lemma three_numbered_posts :
  (0 <= 3)%Z /\ Z.to_nat 3 <= length (usable three_posts_draft)
  /\ split_posts three_posts_draft 3
     = [ py "1. Ship early, learn faster than the rest.";
         py "Talk to ten customers before you write code.";
         py "Hiring is the product you build for your team." ].
Proof.
  split; [lia|]. split; [vm_compute; lia|].
  destruct (post_splitter_count_and_threshold three_posts_draft 3)
    as (_ & E & _);
    [lia | vm_compute; lia | rewrite E; vm_compute; reflexivity].
Defined.

(** ** Trimming a fragment that begins with a numbering *)

Lemma lstrip_app_nonspace t v : forall u,
  isspace t = false -> lstrip (u ++ t :: v) = lstrip u ++ t :: v.
Proof.
  intros u Ht. induction u as [|c u IH]; cbn [app lstrip].
  - now rewrite Ht.
  - destruct (isspace c); [assumption|reflexivity].
Qed.

Lemma rstrip_app_nonspace a t x :
  isspace t = false -> rstrip (a ++ t :: x) = a ++ t :: rstrip x.
Proof.
  intros Ht. unfold rstrip.
  rewrite rev_app_distr. cbn [rev]. rewrite <- app_assoc. cbn [app].
  rewrite lstrip_app_nonspace by assumption.
  rewrite rev_app_distr. cbn [rev]. rewrite rev_involutive.
  now rewrite <- app_assoc.
Qed.

Lemma strip_numbering (ds : str) (t : char) (x : str) :
  ds <> [] -> Forall (fun c => isdecimal c = true) ds ->
  t = 46%N \/ t = 41%N ->
  strip (ds ++ t :: x) = ds ++ t :: rstrip x.
Proof.
  intros Hne Hds Ht. unfold strip.
  rewrite rstrip_app_nonspace by (destruct Ht as [->| ->]; reflexivity).
  destruct ds as [|d ds]; [congruence|]. inversion Hds; subst.
  cbn [app lstrip]. now rewrite decimal_not_space.
Qed.

Lemma no_newline_no_mark pre rest : ~ In NL pre -> no_mark_within pre rest.
Proof.
  intros Hnl p1 p2 m tail E Hne Hm Em.
  apply mark_starts_with_newline in Hm. destruct Hm as [m' ->].
  destruct p2 as [|c p2]; [congruence|].
  inversion Em; subst. apply Hnl. apply in_or_app. right. now left.
Qed.

Lemma digits_no_newline (ds : str) (t : char) :
  Forall (fun c => isdecimal c = true) ds -> t = 46%N \/ t = 41%N ->
  ~ In NL (ds ++ [t]).
Proof.
  intros Hds Ht Hin. apply in_app_or in Hin. destruct Hin as [Hin|[E|[]]].
  - rewrite Forall_forall in Hds. apply Hds in Hin.
    apply decimal_not_space in Hin. discriminate.
  - destruct Ht as [->| ->]; discriminate.
Qed.

Lemma slice_to_cons {A : Type} (n : Z) (x : A) (l : list A) :
  (1 <= n)%Z -> slice_to n (x :: l) = x :: slice_to (n - 1) l.
Proof.
  intros Hn. rewrite !slice_to_nonneg by lia.
  replace (Z.to_nat n) with (S (Z.to_nat (n - 1))) by lia. reflexivity.
Qed.

(** C10. The splitter cuts at numbering marks only, and a mark begins with
    a newline.  So a numbering at the very start of the draft, which has
    no newline before it, is not cut out: it stays at the head of the
    first fragment, and of the first post when that fragment is kept.
    And the text before the first mark is a fragment like the others: when
    it is longer than 30 characters once trimmed it is the first post, and
    one fewer is left for the rest. *)
Theorem splitter_cuts_at_newline_marks :
  (forall raw, exists marks,
      length (Sre.split numbering raw) = S (length marks)
      /\ Forall (fun m => Mark m /\ hd_error m = Some NL) marks
      /\ raw = weave (Sre.split numbering raw) marks)
  /\ (forall (ds : str) (t : char) (rest : str) (n : Z),
        ds <> [] -> Forall (fun c => isdecimal c = true) ds ->
        t = 46%N \/ t = 41%N ->
        exists x tl,
          Sre.split numbering (ds ++ t :: rest) = (ds ++ t :: x) :: tl
          /\ (30 < length (strip (ds ++ t :: x)) -> (1 <= n)%Z ->
              exists tl', split_posts (ds ++ t :: rest) n
                          = (ds ++ t :: rstrip x) :: tl'))
  /\ (forall (pre m rest : str) (n : Z),
        Mark m -> no_mark_within pre (m ++ rest) ->
        30 < length (strip pre) -> (1 <= n)%Z ->
        split_posts (pre ++ m ++ rest) n
        = strip pre :: split_posts rest (n - 1)).
Proof.
  repeat split.
  - intros raw. destruct (split_sound raw) as (marks & Hlen & Hm & E).
    exists marks. repeat split; try assumption.
    rewrite Forall_forall in *. intros m Hin. split; [now apply Hm|].
    destruct (mark_starts_with_newline m (Hm m Hin)) as [m' ->]. reflexivity.
  - intros ds t rest n Hne Hds Ht.
    destruct (split_keeps_prefix (ds ++ [t]) rest (digits_no_newline ds t Hds Ht))
      as (x & tl & E).
    rewrite <- !app_assoc in E. cbn [app] in E.
    exists x, tl. split; [assumption|].
    intros Hlong Hn. rewrite split_posts_usable. unfold usable.
    rewrite E. cbn [filter].
    apply Nat.ltb_lt in Hlong. rewrite Hlong. cbn [map].
    rewrite slice_to_cons by assumption.
    rewrite strip_numbering by assumption. eauto.
  - intros pre m rest n Hm Hfree Hlong Hn.
    rewrite !split_posts_usable. unfold usable.
    rewrite split_at_mark by assumption. cbn [filter].
    apply Nat.ltb_lt in Hlong. rewrite Hlong. cbn [map].
    now apply slice_to_cons.
Qed.

Lemma preamble_takes_a_slot :
  Mark ([NL] ++ py "1.")
  /\ no_mark_within preamble (([NL] ++ py "1.") ++ draft_after_preamble)
  /\ 30 < length (strip preamble)
  /\ split_posts (preamble ++ ([NL] ++ py "1.") ++ draft_after_preamble) 2
     = [ py "Here are three posts about your topic:";
         py "Ship early, learn faster than the rest." ].
Proof.
  assert (Hm : Mark ([NL] ++ py "1.")).
  { exists [], [49%N], 46%N.
    repeat split; try discriminate; auto; repeat constructor. }
  assert (Hfree : forall rest, no_mark_within preamble rest).
  { intros rest. apply no_newline_no_mark. intros Hin.
    vm_compute in Hin. repeat (destruct Hin as [Hin|Hin]; [discriminate|]).
    exact Hin. }
  split; [assumption|]. split; [apply Hfree|]. split; [vm_compute; lia|].
  destruct splitter_cuts_at_newline_marks as (_ & _ & H).
  rewrite H; [vm_compute; reflexivity|assumption|apply Hfree
              |vm_compute; lia|lia].
Defined.

End PostSplitter.

(** * Properties of the pipeline and of the page
      (specification, sections 4.3, 4.4 and 7) *)

Section Pipeline.

Import CleanFacts.

(** The pipeline, request by request. *)
Lemma generate_posts_cases w r sent :
  generate_posts w r sent =
  let n := length sent in
  let p1 := plan_prompt r in
  match chat w n p1 with
  | Raise e => (Raised e, sent ++ [p1])
  | Content plan =>
      let p2 := gen_prompt r plan in
      match chat w (S n) p2 with
      | Raise e => (Raised e, sent ++ [p1; p2])
      | Content posts_raw =>
          let posts := map clean_output (split_posts posts_raw (post_count r)) in
          if hashtags r || cta r then
            let p3 := extras_prompt r in
            match chat w (S (S n)) p3 with
            | Raise e => (Raised e, sent ++ [p1; p2; p3])
            | Content extras =>
                (Returned (posts, extras,
                           round2 (clock w (S (S (S n))) - clock w n)%Q),
                 sent ++ [p1; p2; p3])
            end
          else
            (Returned (posts, [],
                       round2 (clock w (S (S n)) - clock w n)%Q),
             sent ++ [p1; p2])
      end
  end.
Proof.
  cbv zeta. unfold generate_posts, bind, time_time, completion, ret.
  destruct (chat w (length sent) (plan_prompt r)) as [plan|e]; [|reflexivity].
  rewrite !length_app, Nat.add_comm. cbn [length Nat.add].
  destruct (chat w (S (length sent)) (gen_prompt r plan)) as [raw|e].
  2:{ now rewrite <- app_assoc. }
  destruct (hashtags r || cta r).
  - rewrite !length_app. cbn [length]. rewrite !Nat.add_1_r.
    destruct (chat w (S (S (length sent))) (extras_prompt r)) as [extras|e];
      rewrite ?length_app; cbn [length]; rewrite ?Nat.add_1_r;
      now rewrite <- !app_assoc.
  - rewrite ?length_app. cbn [length]. rewrite ?Nat.add_1_r.
    now rewrite <- !app_assoc.
Qed.

Lemma script_cases w i st :
  script w i st =
  if generate_btn i then
    if negb (truthy (topic (request i)))
    then (st, st_warning enter_a_topic :: show_history (history st))
    else
      match generate_posts w (request i) (sent st) with
      | (Returned (posts, extras, latency), sent') =>
          (MkState (history st ++ [posts]) sent',
           show_results (posts, extras, latency)
             ++ show_history (history st ++ [posts]))
      | (Raised e, sent') =>
          (MkState (history st) sent',
           st_error (error_message e) :: show_history (history st))
      end
  else (st, show_history (history st)).
Proof.
  unfold script, run_generator.
  destruct (generate_btn i); [|reflexivity].
  destruct (negb (truthy (topic (request i)))); [reflexivity|].
  destruct (generate_posts w (request i) (sent st)) as [[[[posts extras] latency]|e] sent'];
    reflexivity.
Qed.

Lemma call_raises_generate w r sent e :
  call_raises w r (length sent) e ->
  exists sent', generate_posts w r sent = (Raised e, sent').
Proof.
  rewrite generate_posts_cases. cbv zeta.
  intros [H|[(plan & H1 & H2)|(plan & raw & H1 & H2 & H3 & H4)]].
  - rewrite H. eauto.
  - rewrite H1, H2. eauto.
  - rewrite H1, H2, H3, H4. eauto.
Qed.

(** C1, as the specification states it, does not hold: without either
    flag the pipeline returns the empty string as extras. *)
Lemma extras_not_as_specified : ~ extras_as_specified.
Proof.
  intros H.
  assert (E : generate_posts
                (scripted [Content (py "plan"); Content three_posts_draft])
                (asking (py "growth") false false) []
              = (Returned (map clean_output (split_posts three_posts_draft 3),
                           [], round2 (2 - 0)%Q),
                 [ plan_prompt (asking (py "growth") false false);
                   gen_prompt (asking (py "growth") false false) (py "plan") ])).
  { rewrite generate_posts_cases. reflexivity. }
  destruct (H _ _ _ _ _ _ _ E) as [_ Habsent].
  now apply Habsent.
Qed.

(** What a run that returns has as extras, and how many requests it made. *)
Lemma extras_of_run w r sent posts extras latency sent' :
  generate_posts w r sent = (Returned (posts, extras, latency), sent') ->
  if hashtags r || cta r
  then chat w (length sent + 2) (extras_prompt r) = Content extras
       /\ length sent' = length sent + 3
  else extras = [] /\ length sent' = length sent + 2.
Proof.
  rewrite generate_posts_cases. cbv zeta.
  destruct (chat w (length sent) (plan_prompt r)) as [plan|e]; [|discriminate].
  destruct (chat w (S (length sent)) (gen_prompt r plan)) as [raw|e];
    [|discriminate].
  replace (length sent + 2) with (S (S (length sent))) by lia.
  destruct (hashtags r || cta r).
  - destruct (chat w (S (S (length sent))) (extras_prompt r)) as [x|e];
      [|discriminate].
    intros E. inversion E; subst. split; [reflexivity|].
    rewrite length_app. simpl. lia.
  - intros E. inversion E; subst. split; [reflexivity|].
    rewrite length_app. simpl. lia.
Qed.

(** C1, amended.  Without either flag no extras request is made and the
    extras are the empty string; with a flag they are what the service
    replies to the extras request.  So extras that are not empty were
    asked for, while empty extras may also be an empty reply. *)
Theorem extras_empty_unless_requested w r sent posts extras latency sent' :
  generate_posts w r sent = (Returned (posts, extras, latency), sent') ->
  (hashtags r || cta r = false ->
     extras = [] /\ length sent' = length sent + 2)
  /\ (hashtags r || cta r = true ->
       chat w (length sent + 2) (extras_prompt r) = Content extras
       /\ length sent' = length sent + 3)
  /\ (truthy extras = true -> hashtags r || cta r = true).
Proof.
  intros E. apply extras_of_run in E.
  destruct (hashtags r || cta r); repeat split;
    try discriminate; try apply E.
  destruct E as [-> _]. discriminate.
Qed.

Lemma extras_empty_when_not_asked :
  generate_posts (scripted [Content (py "plan"); Content three_posts_draft])
                 (asking (py "growth") false false) []
  = (Returned (map clean_output (split_posts three_posts_draft 3), [],
               round2 (2 - 0)%Q),
     [ plan_prompt (asking (py "growth") false false);
       gen_prompt (asking (py "growth") false false) (py "plan") ])
  /\ (@nil char = [] /\ 2 = 0 + 2).
Proof.
  assert (E : generate_posts
                (scripted [Content (py "plan"); Content three_posts_draft])
                (asking (py "growth") false false) []
              = (Returned (map clean_output (split_posts three_posts_draft 3),
                           [], round2 (2 - 0)%Q),
                 [ plan_prompt (asking (py "growth") false false);
                   gen_prompt (asking (py "growth") false false) (py "plan") ])).
  { rewrite generate_posts_cases. reflexivity. }
  split; [exact E|].
  destruct (extras_empty_unless_requested _ _ _ _ _ _ _ E) as (H & _ & _).
  apply H. reflexivity.
Defined.

(** C9. When the extras step runs, the extras of the result are the reply
    of the service to the extras request, as it came: the filter is not
    applied to them, and a banned word in the reply is in the result. *)
Theorem extras_are_not_filtered w r sent posts extras latency sent' :
  generate_posts w r sent = (Returned (posts, extras, latency), sent') ->
  hashtags r || cta r = true ->
  chat w (length sent + 2) (extras_prompt r) = Content extras
  /\ (forall reply word,
        chat w (length sent + 2) (extras_prompt r) = Content reply ->
        whole_word_occurrence word reply ->
        whole_word_occurrence word extras).
Proof.
  intros E Hflag. apply extras_of_run in E. rewrite Hflag in E.
  destruct E as [Hx _]. split; [assumption|].
  intros reply word Hreply Hocc. rewrite Hx in Hreply.
  inversion Hreply; subst. assumption.
Qed.

Lemma banned_word_in_extras :
  generate_posts
    (scripted [Content (py "plan"); Content three_posts_draft;
               Content (py "We hate spam")])
    (asking (py "growth") true false) []
  = (Returned (map clean_output (split_posts three_posts_draft 3),
               py "We hate spam", round2 (3 - 0)%Q),
     [ plan_prompt (asking (py "growth") true false);
       gen_prompt (asking (py "growth") true false) (py "plan");
       extras_prompt (asking (py "growth") true false) ])
  /\ chat (scripted [Content (py "plan"); Content three_posts_draft;
                     Content (py "We hate spam")])
          (0 + 2) (extras_prompt (asking (py "growth") true false))
     = Content (py "We hate spam")
  /\ clean_output (py "We hate spam") = py "We [removed] spam".
Proof.
  assert (E : generate_posts
                (scripted [Content (py "plan"); Content three_posts_draft;
                           Content (py "We hate spam")])
                (asking (py "growth") true false) []
              = (Returned (map clean_output (split_posts three_posts_draft 3),
                           py "We hate spam", round2 (3 - 0)%Q),
                 [ plan_prompt (asking (py "growth") true false);
                   gen_prompt (asking (py "growth") true false) (py "plan");
                   extras_prompt (asking (py "growth") true false) ])).
  { rewrite generate_posts_cases. reflexivity. }
  split; [exact E|]. split.
  - apply (extras_are_not_filtered _ _ _ _ _ _ _ E). reflexivity.
  - vm_compute. reflexivity.
Defined.

(** ** Errors *)

(** C5. When a request of the run raises, the run gives no posts, the
    page shows the error with its text, and the history is as it was. *)
Theorem failed_call_stores_nothing w i st e :
  generate_btn i = true ->
  truthy (topic (request i)) = true ->
  call_raises w (request i) (length (sent st)) e ->
  pipeline_result w i st = None
  /\ history (fst (script w i st)) = history st
  /\ snd (script w i st)
     = st_error (error_message e) :: show_history (history st).
Proof.
  intros Hbtn Htopic Hcall.
  destruct (call_raises_generate _ _ _ _ Hcall) as [sent' E].
  unfold pipeline_result. rewrite script_cases, Hbtn, Htopic, E.
  repeat split.
Qed.

Lemma failed_plan_call_stores_nothing :
  call_raises (scripted []) (asking (py "growth") true true) 0
              (py "service unavailable")
  /\ script (scripted []) (click (asking (py "growth") true true))
            (MkState [[py "an earlier post"]] [])
     = (MkState [[py "an earlier post"]]
                [plan_prompt (asking (py "growth") true true)],
        [ st_error ([10060%N] ++ py " Error: service unavailable");
          st_expander ([128220%N] ++ py " View Previous Generations") [] ]).
Proof.
  assert (Hcall : call_raises (scripted []) (asking (py "growth") true true)
                              (length (sent (MkState [[py "an earlier post"]] [])))
                              (py "service unavailable"))
    by (left; reflexivity).
  split; [exact Hcall|].
  destruct (failed_call_stores_nothing
              (scripted []) (click (asking (py "growth") true true))
              (MkState [[py "an earlier post"]] [])
              (py "service unavailable") eq_refl eq_refl Hcall)
    as (_ & Hh & Hp).
  rewrite (surjective_pairing (script _ _ _)), Hp.
  rewrite (script_cases _ _ _). reflexivity.
Defined.

(** C6. With an empty topic the script changes nothing: the history is as
    it was and no request is sent, whatever the service would answer; the
    pipeline gives no result, and a click on the button is answered by the
    warning. *)
Theorem empty_topic_is_rejected w i st :
  topic (request i) = [] ->
  fst (script w i st) = st
  /\ pipeline_result w i st = None
  /\ (generate_btn i = true ->
      snd (script w i st)
      = st_warning enter_a_topic :: show_history (history st))
  /\ (forall w', script w' i st = script w i st).
Proof.
  intros Htopic.
  assert (E : forall w0,
             script w0 i st
             = if generate_btn i
               then (st, st_warning enter_a_topic :: show_history (history st))
               else (st, show_history (history st))).
  { intros w0. rewrite script_cases, Htopic. reflexivity. }
  unfold pipeline_result. rewrite Htopic, E. cbn [truthy].
  rewrite andb_false_r. repeat split.
  - now destruct (generate_btn i).
  - now intros ->.
  - intros w'. apply E.
Qed.

Lemma empty_topic_is_rejected_witness :
  topic (request (click (asking [] true true))) = []
  /\ script (scripted [Content (py "plan")]) (click (asking [] true true))
            initial
     = (initial, [st_warning enter_a_topic]).
Proof.
  split; [reflexivity|].
  destruct (empty_topic_is_rejected
              (scripted [Content (py "plan")]) (click (asking [] true true))
              initial eq_refl) as (Hst & _ & Hpage & _).
  rewrite (surjective_pairing (script _ _ _)), Hst, (Hpage eq_refl).
  reflexivity.
Defined.

(** ** The history *)

Lemma script_history w i st :
  history (fst (script w i st))
  = history st ++ match pipeline_result w i st with
                  | Some (posts, _, _) => [posts]
                  | None => []
                  end.
Proof.
  rewrite script_cases. unfold pipeline_result.
  destruct (generate_btn i); cbn [andb fst]; [|now rewrite app_nil_r].
  destruct (truthy (topic (request i))); cbn [negb fst]; [|now rewrite app_nil_r].
  destruct (generate_posts w (request i) (sent st))
    as [[[[posts extras] latency]|e] sent']; cbn [fst history];
    [reflexivity|now rewrite app_nil_r].
Qed.

Lemma session_history w : forall interactions st,
  history (session w interactions st)
  = history st ++ successful_runs w interactions st.
Proof.
  induction interactions as [|i rest IH]; intros st; cbn [session successful_runs].
  - now rewrite app_nil_r.
  - rewrite IH, script_history. now rewrite <- app_assoc.
Qed.

Lemma list_past_firstn h : list_past h = firstn (length h - 1) h.
Proof. reflexivity. Qed.

(** C4. After [N] successful runs, [N] at least 1, the history has the
    posts of these runs in order, so [N] entries; what the page lists as
    previous runs is the first [N - 1] of them, in order, and the entry of
    the latest run, at position [N], is not listed. *)
Theorem history_view_excludes_latest w interactions N :
  N = length (successful_runs w interactions initial) ->
  1 <= N ->
  history (session w interactions initial)
  = successful_runs w interactions initial
  /\ length (history (session w interactions initial)) = N
  /\ list_past (history (session w interactions initial))
     = firstn (N - 1) (successful_runs w interactions initial)
  /\ length (list_past (history (session w interactions initial))) = N - 1
  /\ exists latest,
       nth_error (history (session w interactions initial)) (N - 1)
       = Some latest
       /\ history (session w interactions initial)
          = list_past (history (session w interactions initial)) ++ [latest].
Proof.
  intros HN Hpos. rewrite session_history. cbn [initial history app].
  set (runs := successful_runs w interactions initial) in *.
  rewrite list_past_firstn, <- HN.
  repeat split.
  - rewrite length_firstn. lia.
  - destruct (nth_error runs (N - 1)) as [latest|] eqn:E.
    + exists latest. split; [reflexivity|].
      rewrite <- (firstn_skipn (N - 1) runs) at 1. f_equal.
      apply nth_error_split in E. destruct E as (l1 & l2 & E & Hl1).
      rewrite E, <- Hl1, skipn_app, Nat.sub_diag, skipn_all. cbn [app skipn].
      f_equal. rewrite E, length_app in HN. cbn [length] in HN.
      destruct l2; [reflexivity|cbn [length] in HN; lia].
    + apply nth_error_None in E. lia.
Qed.

Lemma second_run_lists_first :
  2 = length (successful_runs two_runs_world two_runs_clicks initial)
  /\ 1 <= 2
  /\ list_past (history (session two_runs_world two_runs_clicks initial))
     = [ [ py "1. Ship early, learn faster than the rest.";
           py "Talk to ten customers before you write code.";
           py "Hiring is the product you build for your team." ] ].
Proof.
  assert (HN : 2 = length (successful_runs two_runs_world two_runs_clicks initial))
    by (vm_compute; reflexivity).
  split; [exact HN|]. split; [lia|].
  destruct (history_view_excludes_latest
              two_runs_world two_runs_clicks 2 HN (le_S 1 1 (le_n 1)))
    as (_ & _ & Hview & _).
  rewrite Hview. vm_compute. reflexivity.
Defined.

(** ** The filter in the pipeline *)

Lemma pipeline_result_filtered w i st posts extras latency :
  pipeline_result w i st = Some (posts, extras, latency) ->
  exists plan raw,
    chat w (length (sent st)) (plan_prompt (request i)) = Content plan
    /\ chat w (S (length (sent st))) (gen_prompt (request i) plan) = Content raw
    /\ posts = map clean_output (split_posts raw (post_count (request i))).
Proof.
  unfold pipeline_result.
  destruct (generate_btn i && truthy (topic (request i))); [|discriminate].
  rewrite generate_posts_cases. cbv zeta.
  destruct (chat w (length (sent st)) (plan_prompt (request i))) as [plan|e] eqn:E1;
    [|discriminate].
  destruct (chat w (S (length (sent st))) (gen_prompt (request i) plan)) as [raw|e] eqn:E2;
    [|discriminate].
  destruct (hashtags (request i) || cta (request i));
    [destruct (chat w (S (S (length (sent st)))) (extras_prompt (request i)));
       [|discriminate]|];
    cbn [fst]; intros H; inversion H; subst; exists plan, raw; auto.
Qed.

Lemma successful_runs_filtered w : forall interactions st entry,
  In entry (successful_runs w interactions st) ->
  exists raw n, entry = map clean_output (split_posts raw n).
Proof.
  induction interactions as [|i rest IH]; intros st entry Hin; [destruct Hin|].
  cbn [successful_runs] in Hin. apply in_app_or in Hin.
  destruct Hin as [Hin|Hin]; [|now apply (IH _ _ Hin)].
  destruct (pipeline_result w i st) as [[[posts extras] latency]|] eqn:E;
    [|destruct Hin].
  destruct Hin as [<-|[]].
  apply pipeline_result_filtered in E.
  destruct E as (plan & raw & _ & _ & E). eauto.
Qed.

(** C7. The posts a run returns, which are the ones appended to the
    history, are the fragments of the draft after the filter; so no post
    of any entry of the history has a banned word as a whole word. *)
Theorem stored_posts_are_filtered :
  (forall w i st posts extras latency,
      pipeline_result w i st = Some (posts, extras, latency) ->
      (exists plan raw,
          chat w (length (sent st)) (plan_prompt (request i)) = Content plan
          /\ chat w (S (length (sent st))) (gen_prompt (request i) plan)
             = Content raw
          /\ posts
             = map clean_output (split_posts raw (post_count (request i))))
      /\ history (fst (script w i st)) = history st ++ [posts])
  /\ (forall w interactions entry post word,
        In entry (history (session w interactions initial)) ->
        In post entry ->
        In word banned_words ->
        ~ whole_word_occurrence word post).
Proof.
  split.
  - intros w i st posts extras latency E. split.
    + now apply (pipeline_result_filtered w i st posts extras latency).
    + now rewrite script_history, E.
  - intros w interactions entry post word Hentry Hpost Hword.
    rewrite session_history in Hentry. cbn [initial history app] in Hentry.
    apply successful_runs_filtered in Hentry.
    destruct Hentry as (raw & n & ->).
    apply in_map_iff in Hpost. destruct Hpost as (p & <- & _).
    now apply no_banned_word_left.
Qed.

Lemma stored_posts_are_filtered_witness :
  history (session rude_world [click (asking (py "growth") true false)] initial)
  = [ [ py "1. I [removed] meetings that could have been an email.";
        py "[removed] the backlog before it grows any further.";
        py "Skills beat hateful shortcuts, so keep shipping." ] ]
  /\ ~ whole_word_occurrence
        "hate" (py "1. I [removed] meetings that could have been an email.").
Proof.
  assert (E : history (session rude_world
                         [click (asking (py "growth") true false)] initial)
              = [ [ py "1. I [removed] meetings that could have been an email.";
                    py "[removed] the backlog before it grows any further.";
                    py "Skills beat hateful shortcuts, so keep shipping." ] ])
    by (vm_compute; reflexivity).
  split; [exact E|].
  destruct stored_posts_are_filtered as [_ H].
  apply (H rude_world [click (asking (py "growth") true false)]
           [ py "1. I [removed] meetings that could have been an email.";
             py "[removed] the backlog before it grows any further.";
             py "Skills beat hateful shortcuts, so keep shipping." ]).
  - rewrite E. now left.
  - now left.
  - simpl. auto.
Defined.

End Pipeline.

(** * Further properties of the text filter (app.py, lines 47-52) *)

Section FilterInOnePass.

Import Unicode Sre ListFacts UnicodeFacts FilterFacts CutFacts CleanFacts.

Lemma bracket_pieces_untouched ws m :
  Forall plain_word ws ->
  In m [py "["; py "removed"; py "]"] ->
  censor_any ws m = m.
Proof.
  intros Hws Hm. unfold censor_any.
  replace (existsb (fun w => ci_equal w m) ws) with false; [reflexivity|].
  symmetry. apply not_true_is_false. intros H.
  apply existsb_exists in H. destruct H as (w & Hw & Heq).
  rewrite Forall_forall in Hws.
  rewrite (bracket_pieces_free w m (Hws w Hw) Hm) in Heq. discriminate.
Qed.

Lemma censor_any_after_cut w ws r :
  Forall plain_word ws ->
  concat (map (censor_any ws) (censor_cut w r)) = censor_any (w :: ws) r.
Proof.
  intros Hws. unfold censor_cut, censor_any at 2. cbn [existsb].
  destruct (ci_equal w r); cbn [orb map concat].
  - rewrite !bracket_pieces_untouched; try assumption; cbn; auto.
  - unfold censor_any. now rewrite app_nil_r.
Qed.

Lemma censor_all_in_one_pass ws :
  Forall plain_word ws ->
  forall segs, concat (censor_all ws segs) = concat (map (censor_any ws) segs).
Proof.
  unfold censor_all. induction 1 as [|w ws Hw Hws IH]; intros segs.
  - cbn [fold_left]. f_equal. symmetry. rewrite <- (map_id segs) at 2.
    apply map_ext. reflexivity.
  - cbn [fold_left]. rewrite IH.
    induction segs as [|r segs IHs]; [reflexivity|].
    cbn [flat_map map concat]. rewrite map_app, concat_app.
    now rewrite censor_any_after_cut, IHs.
Qed.

Lemma clean_with_runs ws text :
  Forall plain_word ws ->
  clean_with ws text = concat (map (censor_any ws) (runs text)).
Proof.
  intros Hws. unfold clean_with. rewrite <- (concat_runs text) at 1.
  destruct (fold_sub_cut ws Hws (runs text) (runs_cut text)) as [E _].
  rewrite E. now apply censor_all_in_one_pass.
Qed.

Lemma clean_output_pieces (text : str) :
  clean_output text = concat (map (censor_any banned_words) (runs text)).
Proof. apply (clean_with_runs banned_words), banned_words_plain. Qed.

(** X1. The four passes of the filter amount to one: the text is cut into
    its words and the characters between them, and each word that is a
    banned word, whatever its case, is replaced by the placeholder; all
    else is kept. *)
Theorem clean_output_in_one_pass (text : str) :
  clean_output text = concat (map (censor_any banned_words) (runs text)).
Proof. apply clean_output_pieces. Qed.

(** X2. The order in which the loop takes the banned words does not
    matter. *)
Theorem clean_output_any_order (ws : list string) (text : str) :
  Permutation ws banned_words ->
  clean_with ws text = clean_output text.
Proof.
  intros Hperm.
  assert (Hws : Forall plain_word ws).
  { apply (Permutation_Forall (Permutation_sym Hperm)), banned_words_plain. }
  rewrite clean_with_runs by assumption. rewrite clean_output_pieces.
  f_equal. apply map_ext. intros r. unfold censor_any.
  replace (existsb (fun w => ci_equal w r) ws)
    with (existsb (fun w => ci_equal w r) banned_words); [reflexivity|].
  apply eq_true_iff_eq. rewrite !existsb_exists.
  split; intros (w & Hw & Heq); exists w; split; try assumption.
  - now apply (Permutation_in _ (Permutation_sym Hperm)).
  - now apply (Permutation_in _ Hperm).
Qed.

Lemma clean_output_any_order_witness :
  Permutation ["kill"; "hate"; "shit"; "fuck"]%string banned_words
  /\ clean_with ["kill"; "hate"; "shit"; "fuck"]%string
                (py "Kill the hate, keep the skill")
     = py "[removed] the [removed], keep the skill".
Proof.
  assert (Hperm : Permutation ["kill"; "hate"; "shit"; "fuck"]%string
                              banned_words).
  { apply Permutation_sym.
    change banned_words with (rev ["kill"; "hate"; "shit"; "fuck"]%string).
    apply Permutation_sym, Permutation_rev. }
  split; [exact Hperm|].
  rewrite (clean_output_any_order _ _ Hperm). vm_compute. reflexivity.
Defined.

(** A word of the text that is a banned word is a whole-word occurrence. *)
Lemma cut_around_run : forall s1 r s2 prev,
  cut_at_words (s1 ++ r :: s2) -> is_run r ->
  (s1 = [] -> word_before prev = false) ->
  word_before (final prev (concat s1)) = false
  /\ word_here (concat s2) = false.
Proof.
  induction s1 as [|x s1 IH]; intros r s2 prev Hcut Hr Hprev.
  - cbn [app concat final] in *. split; [now apply Hprev|].
    destruct Hcut as [[(c & -> & Hc)|[_ Hnext]] _]; [|assumption].
    destruct Hr as [_ Hall]. inversion Hall; subst. congruence.
  - cbn [app] in Hcut. destruct Hcut as [Hx Hcut].
    cbn [concat]. rewrite final_app.
    apply (IH r s2 (final prev x) Hcut Hr).
    intros ->. cbn [app concat] in Hx.
    destruct Hx as [(c & -> & Hc)|[_ Hnext]]; [exact Hc|].
    rewrite (word_here_run r (concat s2) Hr) in Hnext. discriminate.
Qed.

Lemma run_of_cut_occurs w segs r :
  plain_word w -> cut_at_words segs -> In r segs -> ci_equal w r = true ->
  whole_word_occurrence w (concat segs).
Proof.
  intros Hw Hcut Hin Heq.
  apply in_split in Hin. destruct Hin as (s1 & s2 & ->).
  destruct (cut_around_run s1 r s2 None Hcut (plain_word_run w r Hw Heq))
    as [Hpre Hpost]; [reflexivity|].
  exists (concat s1), r, (concat s2). repeat split; try assumption.
  rewrite concat_app. reflexivity.
Qed.

Lemma censor_any_banned r :
  censor_any banned_words r = removed
  /\ (exists w, In w banned_words /\ ci_equal w r = true)
  \/ censor_any banned_words r = r
     /\ (forall w, In w banned_words -> ci_equal w r = false).
Proof.
  unfold censor_any.
  destruct (existsb (fun w => ci_equal w r) banned_words) eqn:E.
  - left. split; [reflexivity|]. now apply existsb_exists in E.
  - right. split; [reflexivity|]. intros w Hw.
    destruct (ci_equal w r) eqn:Heq; [|reflexivity].
    assert (existsb (fun w => ci_equal w r) banned_words = true)
      by (apply existsb_exists; eauto).
    congruence.
Qed.

(** X3. The filter returns a text as it is exactly when the text has no
    banned word as a whole word. *)
Theorem clean_output_changes_only_banned (text : str) :
  clean_output text = text
  <-> (forall w, In w banned_words -> ~ whole_word_occurrence w text).
Proof.
  split.
  - intros E w Hw. rewrite <- E. now apply no_banned_word_left.
  - intros Hfree. rewrite clean_output_pieces.
    rewrite <- (concat_runs text) at 2. f_equal.
    rewrite <- (map_id (runs text)) at 2. apply map_ext_in. intros r Hr.
    destruct (censor_any_banned r) as [[_ (w & Hw & Heq)]|[E _]];
      [|assumption].
    exfalso. apply (Hfree w Hw). rewrite <- (concat_runs text).
    apply (run_of_cut_occurs w (runs text) r); try assumption.
    + now apply plain_of_banned.
    + apply runs_cut.
Qed.

Lemma length_concat_censored : forall segs,
  length (concat (map (censor_any banned_words) segs))
  = length (concat segs)
    + 5 * length (filter (fun r => existsb (fun w => ci_equal w r) banned_words)
                         segs).
Proof.
  induction segs as [|r segs IH]; [reflexivity|].
  cbn [map concat filter]. rewrite !length_app, IH.
  unfold censor_any at 1.
  destruct (existsb (fun w => ci_equal w r) banned_words) eqn:E.
  - apply existsb_exists in E. destruct E as (w & Hw & Heq).
    apply same_length in Heq. rewrite (banned_word_length w Hw) in Heq.
    unfold str, char in *. rewrite Heq.
    change (length removed) with 9. cbn [length]. lia.
  - lia.
Qed.

Lemma clean_output_grows (text : str) :
  length (clean_output text) = length text + 5 * banned_words_in text.
Proof.
  rewrite clean_output_pieces, length_concat_censored.
  now rewrite concat_runs.
Qed.

(** X4. The filter never shortens a text: each banned word, of four
    characters, becomes the placeholder, of nine, and nothing else
    changes. *)
Theorem clean_output_length (text : str) :
  length (clean_output text) = length text + 5 * banned_words_in text
  /\ length text <= length (clean_output text).
Proof.
  pose proof (clean_output_grows text) as E.
  split; [exact E|lia].
Qed.

(** X5. The filter can be applied piece by piece: where a text is cut at a
    place that is not inside a word, filtering the two pieces and joining
    them gives the filtered text; so it is with a character that is not a
    word character between them. *)
Theorem clean_output_piecewise (a b : str) :
  word_before (final None a) = false \/ word_here b = false ->
  clean_output (a ++ b) = clean_output a ++ clean_output b
  /\ (forall c, is_word c = false ->
                clean_output (a ++ c :: b)
                = clean_output a ++ c :: clean_output b).
Proof.
  intros Hjoin. split; [now apply clean_output_app|].
  intros c Hc.
  rewrite clean_output_app by (right; exact Hc).
  change (c :: b) with ([c] ++ b).
  rewrite clean_output_app by (left; exact Hc).
  f_equal. cbn [app]. f_equal.
  rewrite clean_output_pieces. cbn [runs]. rewrite Hc. cbn [map concat].
  destruct (censor_any_banned [c]) as [[_ (w & Hw & Heq)]|[-> _]];
    [|reflexivity].
  rewrite (gap_not_equal w (plain_of_banned w Hw) c Hc) in Heq. discriminate.
Qed.

Lemma clean_output_piecewise_witness :
  (word_before (final None (py "I hate")) = false
   \/ word_here (py " that KILL switch") = false)
  /\ clean_output (py "I hate" ++ py " that KILL switch")
     = py "I [removed]" ++ py " that [removed] switch".
Proof.
  assert (H : word_before (final None (py "I hate")) = false
              \/ word_here (py " that KILL switch") = false)
    by (right; vm_compute; reflexivity).
  split; [exact H|].
  destruct (clean_output_piecewise _ _ H) as [E _].
  rewrite E. vm_compute. reflexivity.
Defined.

End FilterInOnePass.

(** * Further properties of the splitting (app.py, lines 86-88) *)

Section SplitterMore.

Import Unicode Sre Scan ListFacts SreFacts UnicodeFacts NumberingFacts.

(** X6. The splitter returns as many posts as asked for, or all the usable
    fragments when there are fewer: a short result is not an error. *)
Theorem split_posts_count (raw : str) (post_count : Z) :
  (0 <= post_count)%Z ->
  length (split_posts raw post_count)
  = Nat.min (Z.to_nat post_count) (length (usable raw))
  /\ (length (usable raw) <= Z.to_nat post_count ->
      split_posts raw post_count = map strip (usable raw)).
Proof.
  intros Hn. rewrite split_posts_usable, slice_to_nonneg by assumption.
  split.
  - now rewrite length_firstn, length_map.
  - intros Hle. apply firstn_all2. now rewrite length_map.
Qed.

Lemma split_posts_count_witness :
  (0 <= 5)%Z
  /\ split_posts two_posts_draft 5
     = [ py "1. Ship early, learn faster than the rest.";
         py "Hiring is the product you build for your team." ].
Proof.
  split; [lia|].
  destruct (split_posts_count two_posts_draft 5) as [_ E]; [lia|].
  rewrite E; [|vm_compute; lia]. vm_compute. reflexivity.
Defined.

Lemma after_mark_needs_newline c s : c <> NL -> after_mark (c :: s) = None.
Proof.
  intros Hc. unfold after_mark.
  destruct (N.eqb_spec c 10) as [E|_]; [|reflexivity].
  exfalso. now apply Hc.
Qed.

Lemma split_one_line raw :
  ~ In NL raw -> Sre.split numbering raw = [raw].
Proof.
  intros Hnl. apply split_no_mark. intros p1 p2 E.
  destruct p2 as [|c p2]; [reflexivity|].
  apply after_mark_needs_newline. intros ->.
  apply Hnl. rewrite E. apply in_or_app. right. now left.
Qed.

(** X7. A draft without a newline is not split, whatever numbering it has
    inside: it gives one post, the whole draft trimmed, when that is longer
    than 30 characters, and none otherwise. *)
Theorem one_line_draft_is_one_post (raw : str) (post_count : Z) :
  ~ In NL raw ->
  (1 <= post_count)%Z ->
  Sre.split numbering raw = [raw]
  /\ split_posts raw post_count
     = if (30 <? length (strip raw))%nat then [strip raw] else [].
Proof.
  intros Hnl Hn. pose proof (split_one_line raw Hnl) as E.
  split; [exact E|].
  rewrite split_posts_usable. unfold usable. rewrite E. cbn [filter].
  destruct (30 <? length (strip raw))%nat; cbn [map].
  - rewrite slice_to_cons by assumption. f_equal.
    rewrite slice_to_nonneg by lia. apply firstn_nil.
  - rewrite slice_to_nonneg by lia. apply firstn_nil.
Qed.

Lemma one_line_draft_is_one_post_witness :
  ~ In NL one_line_draft /\ (1 <= 3)%Z
  /\ split_posts one_line_draft 3 = [one_line_draft].
Proof.
  assert (Hnl : ~ In NL one_line_draft).
  { intros Hin. vm_compute in Hin.
    repeat (destruct Hin as [Hin|Hin]; [discriminate|]). exact Hin. }
  split; [exact Hnl|]. split; [lia|].
  destruct (one_line_draft_is_one_post one_line_draft 3 Hnl) as [_ E]; [lia|].
  rewrite E. vm_compute. reflexivity.
Defined.

(** ** Posts are trimmed parts of the draft *)

Lemma lstrip_drop_while s : lstrip s = drop_while isspace s.
Proof.
  induction s as [|c s IH]; [reflexivity|].
  cbn [lstrip drop_while]. now destruct (isspace c).
Qed.

Lemma part_of_refl (s : str) : part_of s s.
Proof. exists [], []. cbn. now rewrite app_nil_r. Qed.

Lemma part_of_trans (a b c : str) : part_of a b -> part_of b c -> part_of a c.
Proof.
  intros (x & y & ->) (x' & y' & ->).
  exists (x' ++ x), (y ++ y'). now rewrite <- !app_assoc.
Qed.

Lemma part_of_lstrip s : part_of (lstrip s) s.
Proof.
  exists (take_while isspace s), []. rewrite app_nil_r, lstrip_drop_while.
  symmetry. apply take_drop_while.
Qed.

Lemma part_of_rstrip s : part_of (rstrip s) s.
Proof.
  unfold rstrip. exists [], (rev (take_while isspace (rev s))).
  cbn [app]. rewrite lstrip_drop_while, <- rev_app_distr, take_drop_while.
  symmetry. apply rev_involutive.
Qed.

Lemma part_of_strip s : part_of (strip s) s.
Proof.
  unfold strip. apply (part_of_trans _ (rstrip s));
    [apply part_of_lstrip|apply part_of_rstrip].
Qed.

Lemma part_of_weave : forall frags marks q,
  length frags = S (length marks) -> In q frags ->
  part_of q (weave frags marks).
Proof.
  induction frags as [|f frags IH]; intros marks q Hlen Hin; [destruct Hin|].
  destruct marks as [|m marks].
  - destruct frags; [|discriminate]. destruct Hin as [->|[]].
    apply part_of_refl.
  - cbn [weave]. destruct Hin as [->|Hin].
    + exists [], (m ++ weave frags marks). reflexivity.
    + cbn [length] in Hlen. injection Hlen as Hlen.
      destruct (IH marks q Hlen Hin) as (a & b & E).
      exists (f ++ m ++ a), b. rewrite E. now rewrite <- !app_assoc.
Qed.

Lemma part_of_fragment raw q : In q (Sre.split numbering raw) -> part_of q raw.
Proof.
  intros Hin. destruct (split_sound raw) as (marks & Hlen & _ & E).
  rewrite E. now apply part_of_weave.
Qed.

Lemma final_nonempty b : forall p q, b <> [] -> final p b = final q b.
Proof. destruct b; [congruence|reflexivity]. Qed.

Lemma lstrip_head s : blank_end (hd_error (lstrip s)) = false \/ lstrip s = [].
Proof.
  rewrite lstrip_drop_while. pose proof (drop_while_head isspace s) as H.
  destruct (drop_while isspace s); [now right|now left].
Qed.

Lemma final_strip s : strip s <> [] -> final None (strip s) = final None (rstrip s).
Proof.
  intros Hne. unfold strip in *.
  rewrite <- (take_drop_while isspace (rstrip s)) at 2.
  rewrite final_app, <- lstrip_drop_while.
  now apply final_nonempty.
Qed.

Lemma trimmed_strip s : strip s <> [] -> trimmed (strip s).
Proof.
  intros Hne. split.
  - unfold strip in *.
    destruct (lstrip_head (rstrip s)); [assumption|congruence].
  - rewrite final_strip by assumption. unfold rstrip.
    rewrite final_rev.
    destruct (lstrip_head (rev s)) as [H|H].
    + destruct (lstrip (rev s)); [discriminate H|exact H].
    + exfalso. apply Hne. unfold strip, rstrip. now rewrite H.
Qed.

Lemma split_posts_are_parts_helper (raw : str) (n : Z) (p : str) :
  In p (split_posts raw n) -> part_of p raw /\ trimmed p.
Proof.
  intros Hin. rewrite split_posts_usable in Hin.
  destruct (slice_to_firstn n (map strip (usable raw))) as [k Ek].
  rewrite Ek in Hin.
  assert (Hin' : In p (map strip (usable raw))).
  { rewrite <- (firstn_skipn k (map strip (usable raw))).
    apply in_or_app. now left. }
  pose proof (usable_long raw p Hin') as Hlong.
  apply in_map_iff in Hin'. destruct Hin' as (q & <- & Hq).
  unfold usable in Hq. apply filter_In in Hq. destruct Hq as [Hq _].
  split.
  - apply (part_of_trans _ q); [apply part_of_strip|].
    now apply part_of_fragment.
  - apply trimmed_strip. intros E. rewrite E in Hlong. cbn in Hlong. lia.
Qed.

(** X8. Every post the splitter returns is a part of the draft, taken as
    it stands and trimmed: it is not empty and has no white space at
    either end. *)
Theorem split_posts_are_trimmed_parts (raw : str) (post_count : Z) (p : str) :
  In p (split_posts raw post_count) ->
  part_of p raw /\ trimmed p.
Proof. apply split_posts_are_parts_helper. Qed.

Lemma split_posts_are_trimmed_parts_witness :
  In (py "Talk to ten customers before you write code.")
     (split_posts three_posts_draft 3)
  /\ part_of (py "Talk to ten customers before you write code.")
             three_posts_draft.
Proof.
  assert (Hin : In (py "Talk to ten customers before you write code.")
                   (split_posts three_posts_draft 3))
    by (vm_compute; auto).
  split; [exact Hin|].
  apply (split_posts_are_trimmed_parts three_posts_draft 3 _ Hin).
Defined.

End SplitterMore.

(** * Further properties of the pipeline (app.py, lines 57-108) *)

Section PipelineMore.

Import Unicode Sre ListFacts UnicodeFacts FilterFacts CutFacts CleanFacts.

Lemma skipn_length_app {A : Type} (l l' : list A) : skipn (length l) (l ++ l') = l'.
Proof. now rewrite skipn_app, Nat.sub_diag, skipn_all. Qed.

Ltac run_cases w r sent :=
  let plan := fresh "plan" in
  destruct (chat w (length sent) (plan_prompt r)) as [plan|?] eqn:?;
  [destruct (chat w (S (length sent)) (gen_prompt r plan)) as [?|?] eqn:?;
   [destruct (hashtags r || cta r) eqn:?;
    [destruct (chat w (S (S (length sent))) (extras_prompt r)) as [?|?] eqn:?
    |]
   |]
  |].

(** The requests of a run, case by case. *)
Lemma requests_of_cases w r sent :
  generate_posts w r sent = (fst (generate_posts w r sent),
                             sent ++ requests_of w r sent)
  /\ requests_of w r sent =
     match chat w (length sent) (plan_prompt r) with
     | Raise _ => [plan_prompt r]
     | Content plan =>
         match chat w (S (length sent)) (gen_prompt r plan) with
         | Raise _ => [plan_prompt r; gen_prompt r plan]
         | Content _ =>
             if hashtags r || cta r
             then [plan_prompt r; gen_prompt r plan; extras_prompt r]
             else [plan_prompt r; gen_prompt r plan]
         end
     end.
Proof.
  unfold requests_of. rewrite generate_posts_cases. cbv zeta.
  destruct (chat w (length sent) (plan_prompt r)) as [plan|e];
    [|cbn [fst snd]; now rewrite skipn_length_app].
  destruct (chat w (S (length sent)) (gen_prompt r plan)) as [raw|e];
    [|cbn [fst snd]; now rewrite skipn_length_app].
  destruct (hashtags r || cta r);
    [destruct (chat w (S (S (length sent))) (extras_prompt r))|];
    cbn [fst snd]; now rewrite skipn_length_app.
Qed.

Lemma requests_bounds w r sent :
  1 <= length (requests_of w r sent) <= 3
  /\ hd_error (requests_of w r sent) = Some (plan_prompt r).
Proof.
  destruct (requests_of_cases w r sent) as [_ ->].
  run_cases w r sent; cbn [length hd_error]; split; (lia || reflexivity).
Qed.


Lemma plan_in_gen_prompt r plan : part_of plan (gen_prompt r plan).
Proof.
  unfold gen_prompt, part_of.
  exists ([NL] ++ py "    Based on this plan:" ++ [NL]). eexists.
  rewrite <- (app_assoc [NL]), <- (app_assoc (py "    Based on this plan:")).
  reflexivity.
Qed.

(** X10. The second request of a run is the draft request, and it carries
    the reply to the plan request, as it came. *)
Theorem plan_is_passed_to_draft_request w r sent q :
  nth_error (requests_of w r sent) 1 = Some q ->
  exists plan,
    chat w (length sent) (plan_prompt r) = Content plan
    /\ q = gen_prompt r plan
    /\ part_of plan q.
Proof.
  destruct (requests_of_cases w r sent) as [_ Hreq]. rewrite Hreq.
  run_cases w r sent; cbn [nth_error]; intros Hq; try discriminate;
    inversion Hq; subst; eexists; (split; [reflexivity|]);
    (split; [reflexivity|apply plan_in_gen_prompt]).
Qed.

Lemma plan_is_passed_to_draft_request_witness :
  nth_error (requests_of (scripted [Content (py "hooks first")])
                         (asking (py "growth") false false) []) 1
  = Some (gen_prompt (asking (py "growth") false false) (py "hooks first"))
  /\ part_of (py "hooks first")
             (gen_prompt (asking (py "growth") false false) (py "hooks first")).
Proof.
  assert (H : nth_error (requests_of (scripted [Content (py "hooks first")])
                                     (asking (py "growth") false false) []) 1
              = Some (gen_prompt (asking (py "growth") false false)
                                 (py "hooks first")))
    by (vm_compute; reflexivity).
  split; [exact H|].
  destruct (plan_is_passed_to_draft_request _ _ _ _ H) as (plan & E & _ & Hp).
  vm_compute in E. inversion E; subst. exact Hp.
Defined.

(** ** The posts of a run *)

Lemma hd_error_app_nonempty (a b : str) : a <> [] -> hd_error (a ++ b) = hd_error a.
Proof. destruct a; [congruence|reflexivity]. Qed.

Lemma censor_any_ends r :
  r <> [] ->
  blank_end (hd_error r) = false ->
  blank_end (final None r) = false ->
  censor_any banned_words r <> []
  /\ blank_end (hd_error (censor_any banned_words r)) = false
  /\ blank_end (final None (censor_any banned_words r)) = false.
Proof.
  intros Hne Hh Hl.
  destruct (censor_any_banned r) as [[-> _]|[-> _]].
  - repeat split; (discriminate || (vm_compute; reflexivity)).
  - now repeat split.
Qed.

Lemma clean_output_keeps_trimmed p : trimmed p -> trimmed (clean_output p).
Proof.
  intros [Hh Hl]. rewrite clean_output_pieces.
  pose proof (cut_pieces_not_nil _ (runs_cut p)) as Hne.
  rewrite <- (concat_runs p) in Hh, Hl.
  destruct (runs p) as [|r1 segs]; [discriminate Hh|].
  split.
  - inversion Hne as [|? ? Hr1 _]; subst.
    cbn [map concat]. cbn [concat] in Hh.
    rewrite hd_error_app_nonempty in Hh by assumption.
    destruct (censor_any_banned r1) as [[-> _]|[-> _]].
    + vm_compute. reflexivity.
    + now rewrite hd_error_app_nonempty.
  - assert (Hnil : r1 :: segs <> []) by discriminate.
    destruct (exists_last Hnil) as (init & rl & Elast).
    rewrite Elast in *. clear Elast Hnil.
    apply Forall_app in Hne. destruct Hne as [_ Hrl].
    inversion Hrl as [|? ? Hrl' _]; subst.
    rewrite concat_app in Hl. cbn [concat] in Hl. rewrite app_nil_r in Hl.
    rewrite final_app in Hl.
    rewrite (final_nonempty rl _ None Hrl') in Hl.
    rewrite map_app, concat_app. cbn [map concat]. rewrite app_nil_r, final_app.
    destruct (censor_any_banned rl) as [[-> _]|[-> _]].
    + vm_compute. reflexivity.
    + now rewrite (final_nonempty rl _ None Hrl').
Qed.

Lemma returned_posts_long_trimmed raw n post :
  In post (map clean_output (split_posts raw n)) ->
  30 < length post /\ trimmed post.
Proof.
  intros Hin. apply in_map_iff in Hin. destruct Hin as (p & <- & Hp).
  destruct (split_posts_are_parts_helper raw n p Hp) as [_ Ht].
  split; [|now apply clean_output_keeps_trimmed].
  pose proof (clean_output_grows p) as Hlen.
  assert (30 < length p); [|lia].
  rewrite split_posts_usable in Hp.
  destruct (slice_to_firstn n (map strip (usable raw))) as [k Ek].
  rewrite Ek in Hp. apply (usable_long raw).
  rewrite <- (firstn_skipn k (map strip (usable raw))).
  apply in_or_app. now left.
Qed.

(** X11. Every post a run returns is longer than 30 characters and has no
    white space at either end, also after the filter, and there are no
    more posts than asked for; every post ever stored in the history is
    like that. *)
Theorem posts_are_long_and_trimmed :
  (forall w i st posts extras latency,
      pipeline_result w i st = Some (posts, extras, latency) ->
      Forall (fun p => 30 < length p /\ trimmed p) posts
      /\ ((0 <= post_count (request i))%Z ->
          length posts <= Z.to_nat (post_count (request i))))
  /\ (forall w interactions entry post,
        In entry (history (session w interactions initial)) ->
        In post entry ->
        30 < length post /\ trimmed post).
Proof.
  split.
  - intros w i st posts extras latency E.
    apply pipeline_result_filtered in E.
    destruct E as (plan & raw & _ & _ & ->). split.
    + apply Forall_forall. intros p Hp.
      now apply (returned_posts_long_trimmed raw (post_count (request i))).
    + intros Hn. rewrite length_map, split_posts_usable.
      rewrite slice_to_nonneg by assumption. rewrite length_firstn. lia.
  - intros w interactions entry post Hentry Hpost.
    rewrite session_history in Hentry. cbn [initial history app] in Hentry.
    apply successful_runs_filtered in Hentry.
    destruct Hentry as (raw & n & ->).
    now apply (returned_posts_long_trimmed raw n).
Qed.

End PipelineMore.

(** * Further properties of the session (app.py, lines 41-42, 113-159) *)

Section SessionMore.

Lemma script_sent w i st :
  sent (fst (script w i st))
  = sent st ++ (if starts_run i then requests_of w (request i) (sent st)
                else []).
Proof.
  rewrite script_cases. unfold starts_run.
  destruct (generate_btn i); cbn [andb fst]; [|now rewrite app_nil_r].
  destruct (truthy (topic (request i))); cbn [negb fst];
    [|now rewrite app_nil_r].
  destruct (requests_of_cases w (request i) (sent st)) as [E _].
  rewrite E.
  now destruct (fst (generate_posts w (request i) (sent st)))
    as [[[posts extras] latency]|e].
Qed.

Lemma session_app w : forall is1 is2 st,
  session w (is1 ++ is2) st = session w is2 (session w is1 st).
Proof.
  induction is1 as [|i is1 IH]; intros is2 st; [reflexivity|].
  cbn [app session]. apply IH.
Qed.

Lemma successful_runs_count w : forall interactions st,
  length (successful_runs w interactions st) <= runs_started interactions.
Proof.
  unfold runs_started.
  induction interactions as [|i rest IH]; intros st; [reflexivity|].
  cbn [successful_runs filter]. rewrite length_app.
  specialize (IH (fst (script w i st))).
  unfold pipeline_result, starts_run in *.
  destruct (generate_btn i && truthy (topic (request i))).
  - destruct (fst (generate_posts w (request i) (sent st)))
      as [[[posts extras] latency]|e]; cbn [length]; lia.
  - cbn [length]. lia.
Qed.

(** X12. The history only grows, at its end: whatever happens later in a
    session, the entries it had stay as they were and where they were, and
    no more entries are added than runs were started. *)
Theorem history_is_append_only w (before later : list Inputs) st :
  exists added,
    history (session w (before ++ later) st)
    = history (session w before st) ++ added
    /\ length added <= runs_started later.
Proof.
  rewrite session_app.
  exists (successful_runs w later (session w before st)).
  split; [apply session_history|apply successful_runs_count].
Qed.

(** X13. Requests go to the service only for runs: in a session, the
    requests sent are at least one and at most three for each click with a
    topic, and none for anything else. *)
Theorem requests_only_for_runs w (interactions : list Inputs) st :
  exists more,
    sent (session w interactions st) = sent st ++ more
    /\ runs_started interactions <= length more
    /\ length more <= 3 * runs_started interactions.
Proof.
  unfold runs_started. revert st.
  induction interactions as [|i rest IH]; intros st.
  - exists []. cbn. rewrite app_nil_r. repeat split; lia.
  - cbn [session filter].
    destruct (IH (fst (script w i st))) as (more & E & Hlo & Hhi).
    rewrite E, script_sent.
    destruct (starts_run i).
    + destruct (requests_bounds w (request i) (sent st)) as [[H1 H3] _].
      exists (requests_of w (request i) (sent st) ++ more).
      rewrite <- app_assoc. split; [reflexivity|].
      rewrite length_app. cbn [length]. lia.
    + exists more. rewrite app_nil_r. repeat split; assumption.
Qed.

(** X14. The topic is only checked for being empty: a click with any other
    topic, one of blanks too, starts a run, which sends the plan request. *)
Theorem any_topic_starts_a_run w i st :
  generate_btn i = true ->
  topic (request i) <> [] ->
  exists more,
    sent (fst (script w i st))
    = sent st ++ plan_prompt (request i) :: more.
Proof.
  intros Hbtn Htopic. rewrite script_sent. unfold starts_run. rewrite Hbtn.
  destruct (topic (request i)) as [|c t] eqn:Et; [congruence|].
  cbn [truthy andb]. clear Et.
  destruct (requests_bounds w (request i) (sent st)) as [_ Hhd].
  destruct (requests_of w (request i) (sent st)) as [|q more];
    [discriminate|].
  cbn in Hhd. inversion Hhd; subst. eauto.
Qed.

Lemma any_topic_starts_a_run_witness :
  topic (request (click (asking blank_topic false false))) <> []
  /\ exists more,
       sent (fst (script (scripted []) (click (asking blank_topic false false))
                        initial))
       = sent initial
         ++ plan_prompt (request (click (asking blank_topic false false)))
         :: more.
Proof.
  assert (Hne : topic (request (click (asking blank_topic false false))) <> [])
    by discriminate.
  split; [exact Hne|].
  exact (any_topic_starts_a_run (scripted [])
           (click (asking blank_topic false false)) initial eq_refl Hne).
Defined.



End SessionMore.

(** * The cards of a run (app.py, lines 126-140) *)

Section Cards.

Lemma py_inj (a b : string) : py a = py b -> a = b.
Proof.
  unfold py. intros E.
  rewrite <- (string_of_list_ascii_of_string a),
          <- (string_of_list_ascii_of_string b).
  f_equal.
  revert E. generalize (list_ascii_of_string a) (list_ascii_of_string b).
  induction l as [|x l IH]; intros [|y l'] E; try discriminate;
    [reflexivity|].
  cbn [map] in E. inversion E as [[Ex El]].
  f_equal; [|now apply IH].
  now rewrite <- (ascii_N_embedding x), <- (ascii_N_embedding y), Ex.
Qed.

Lemma str_of_int_inj (n m : Z) : str_of_int n = str_of_int m -> n = m.
Proof.
  unfold str_of_int. intros E. apply py_inj in E.
  assert (Hn : forall k, Z.to_int k <> Decimal.Pos Decimal.Nil
                         /\ Z.to_int k <> Decimal.Neg Decimal.Nil).
  { intros [|p|p]; cbn; split; try discriminate; intros H; inversion H;
      now apply (DecimalPos.Unsigned.to_uint_nonnil p). }
  apply DecimalZ.to_int_inj.
  assert (Some (Z.to_int n) = Some (Z.to_int m)) as H; [|now inversion H].
  rewrite <- (NilZero.isi (Z.to_int n)), <- (NilZero.isi (Z.to_int m)), E;
    try reflexivity; apply Hn.
Qed.

Lemma str_of_nat_inj (n m : nat) : str_of_nat n = str_of_nat m -> n = m.
Proof. unfold str_of_nat. intros E. apply str_of_int_inj in E. lia. Qed.

Lemma enumerate_fst {A : Type} : forall (l : list A) start,
  map fst (enumerate start l) = seq start (length l).
Proof.
  induction l as [|x l IH]; intros start; [reflexivity|].
  cbn [enumerate map length seq fst]. now rewrite IH.
Qed.

Lemma enumerate_snd {A : Type} : forall (l : list A) start,
  map snd (enumerate start l) = l.
Proof.
  induction l as [|x l IH]; intros start; [reflexivity|].
  cbn [enumerate map snd]. now rewrite IH.
Qed.

Lemma card_columns_posts : forall (l : list (nat * str)),
  card_columns (map show_post l) = map (fun ip => (fst ip - 1) mod 3) l.
Proof.
  induction l as [|[i p] l IH]; [reflexivity|].
  unfold card_columns in *. cbn [map flat_map show_post app fst].
  now rewrite IH.
Qed.

Lemma downloads_posts : forall (l : list (nat * str)),
  downloads (map show_post l)
  = map (fun ip =>
           ([11015%N; 65039%N] ++ py " Download Option " ++ str_of_nat (fst ip),
            snd ip,
            py "linkedin_post_" ++ str_of_nat (fst ip) ++ py ".txt")) l.
Proof.
  induction l as [|[i p] l IH]; [reflexivity|].
  unfold downloads in *. cbn [map flat_map show_post app fst snd].
  now rewrite IH.
Qed.

Lemma downloads_results posts extras latency :
  downloads (show_results (posts, extras, latency))
  = downloads (map show_post (enumerate 1 posts)).
Proof.
  unfold show_results, downloads. rewrite !flat_map_app.
  cbn [flat_map app].
  destruct (truthy extras); cbn [flat_map app]; now rewrite app_nil_r.
Qed.

Lemma card_columns_results posts extras latency :
  card_columns (show_results (posts, extras, latency))
  = card_columns (map show_post (enumerate 1 posts)).
Proof.
  unfold show_results, card_columns. rewrite !flat_map_app.
  cbn [flat_map app].
  destruct (truthy extras); cbn [flat_map app]; now rewrite app_nil_r.
Qed.

(** X16. A run shows one card for each post, in order and dealt to the three
    columns in turn; each card's download is the post itself, and no two
    cards share a button label or a file name. *)
Theorem one_card_for_each_post (posts : list str) (extras : str) (latency : Q) :
  card_columns (show_results (posts, extras, latency))
  = map (fun k => k mod 3) (seq 0 (length posts))
  /\ map (fun d => snd (fst d)) (downloads (show_results (posts, extras, latency)))
     = posts
  /\ NoDup (map (fun d => fst (fst d))
              (downloads (show_results (posts, extras, latency))))
  /\ NoDup (map snd (downloads (show_results (posts, extras, latency)))).
Proof.
  rewrite downloads_results, downloads_posts, !map_map. cbn [fst snd].
  split; [|split; [|split]].
  - rewrite card_columns_results.
    rewrite card_columns_posts.
    rewrite <- (map_map fst (fun i => (i - 1) mod 3)), enumerate_fst.
    rewrite <- seq_shift, map_map.
    apply map_ext. intros k. f_equal. lia.
  - apply enumerate_snd.
  - rewrite <- (map_map fst (fun i => [11015%N; 65039%N]
                               ++ py " Download Option " ++ str_of_nat i)),
      enumerate_fst.
    apply NoDup_map_NoDup_ForallPairs; [|apply seq_NoDup].
    intros a b _ _ E.
    apply app_inv_head in E. apply app_inv_head in E.
    now apply str_of_nat_inj.
  - rewrite <- (map_map fst (fun i => py "linkedin_post_" ++ str_of_nat i
                                      ++ py ".txt")),
      enumerate_fst.
    apply NoDup_map_NoDup_ForallPairs; [|apply seq_NoDup].
    intros a b _ _ E.
    apply app_inv_head in E. apply app_inv_tail in E.
    now apply str_of_nat_inj.
Qed.






End Cards.

(** * The suggestions block (app.py, lines 91-102 and 142-145) *)

Section Suggestions.

Lemma show_history_top (h : list (list str)) (t : str) :
  ~ In (st_subheader t) (show_history h).
Proof.
  unfold show_history. destruct h; cbn [In]; [tauto|].
  intros [H|[]]. discriminate.
Qed.

Lemma suggestions_in_results posts extras latency :
  In (st_subheader suggestions_title) (show_results (posts, extras, latency))
  <-> extras <> [].
Proof.
  unfold show_results. split.
  - intros H. apply in_app_or in H.
    destruct H as [[H|[]]|H]; [vm_compute in H; discriminate|].
    apply in_app_or in H. destruct H as [H|H].
    + apply in_map_iff in H. destruct H as ([k p] & H & _). discriminate.
    + destruct extras; [|discriminate].
      cbn in H. destruct H as [H|[]]. discriminate.
  - intros Hx. apply in_or_app. right. apply in_or_app. right.
    destruct extras; [congruence|]. cbn [truthy app]. right. now left.
Qed.

(** X18. The suggestions block is on the page exactly when the run returned
    a non-empty text of suggestions; that needs the hashtags or the
    call-to-action option, and the text is the service's answer to the third
    request. *)
Theorem suggestions_block_shown_iff w i st :
  In (st_subheader suggestions_title) (snd (script w i st))
  <-> exists posts extras latency,
        pipeline_result w i st = Some (posts, extras, latency)
        /\ extras <> []
        /\ (hashtags (request i) || cta (request i)) = true
        /\ chat w (length (sent st) + 2) (extras_prompt (request i))
           = Content extras.
Proof.
  unfold pipeline_result. rewrite script_cases.
  destruct (generate_btn i); cbn [andb snd].
  2:{ split; [intros H; now apply show_history_top in H|].
      intros (p & x & l & E & _). discriminate. }
  destruct (truthy (topic (request i))); cbn [negb snd].
  2:{ split.
      - intros [H|H]; [discriminate|now apply show_history_top in H].
      - intros (p & x & l & E & _). discriminate. }
  destruct (generate_posts w (request i) (sent st))
    as [[[[posts extras] latency]|e] sent'] eqn:E; cbn [fst snd].
  2:{ split.
      - intros [H|H]; [discriminate|now apply show_history_top in H].
      - intros (p & x & l & E' & _). discriminate. }
  pose proof (extras_of_run _ _ _ _ _ _ _ E) as Hx.
  split.
  - intros H. apply in_app_or in H.
    destruct H as [H|H]; [|now apply show_history_top in H].
    apply suggestions_in_results in H.
    exists posts, extras, latency.
    split; [reflexivity|]. split; [exact H|].
    destruct (hashtags (request i) || cta (request i)).
    + split; [reflexivity|apply Hx].
    + destruct Hx as [Hx _]. contradiction.
  - intros (p & x & l & E' & Hne & _). inversion E'; subst.
    apply in_or_app. left. now apply suggestions_in_results.
Qed.

End Suggestions.
